(** * Upgrade-group planning and unit/process validation

    A shallow embedding of [zaza/openstack/utilities/upgrade_utils.py] and of
    the process-id helpers exercised by
    [unit_tests/utilities/test_zaza_utilities_generic.py].

    Conventions of the embedding:
    - a Python [str] is a [string]; a character is an [ascii] code;
    - a Python [dict] is an association list in insertion order (iteration
      order of the dict), whose keys are pairwise distinct;
    - a Python call that may raise returns a [result]: [Ok v] for a normal
      return, [Raise e] for an exception that propagates to the caller;
    - logging and printing are not observable in the results and are left
      out. *)

From Stdlib Require Import Bool List ZArith Lia Ascii String Sorted Permutation.
Import ListNotations.
Open Scope string_scope.

(** ** Exceptions and the error monad *)

(** The expected number of PIDs of a process: one exact count, or a
    sequence of acceptable counts. *)
Inductive ExpectedCount : Type :=
| ExactCount (n : Z)
| OneOf (ns : list Z).

(** The exceptions that the embedded code can raise.  The first four are
    Python built-ins, the remaining ones are the named error kinds of
    [zaza.openstack.utilities.exceptions]. *)
Inductive exn : Type :=
| AttributeError
| IndexError
| KeyError (key : string)
| RuntimeError (msg : string)
| UnitCountMismatch
| UnitNotFound (unit_name : string)
| ProcessNameCountMismatch
| ProcessNameMismatch (proc_name : string)
| PIDCountMismatch (unit_name proc_name : string)
    (expected : ExpectedCount) (n_actual : nat)
| ProcessIdsFailed.

Inductive result (A : Type) : Type :=
| Ok (a : A)
| Raise (e : exn).
Arguments Ok {A} a.
Arguments Raise {A} e.

Definition bind {A B : Type} (c : result A) (k : A -> result B) : result B :=
  match c with
  | Ok a => k a
  | Raise e => Raise e
  end.

Notation "x <- c ;; k" := (bind c (fun x => k))
  (at level 61, c at next level, right associativity).

(** ** Python built-ins used by the code *)

Module Py.

Definition newline : ascii := "010"%char.

(** The character class [[0-9]]. *)
Definition is_digit (c : ascii) : bool :=
  (48 <=? nat_of_ascii c)%nat && (nat_of_ascii c <=? 57)%nat.

(** [str.split(sep)] for a one-character separator: every occurrence of
    [sep] cuts, empty pieces are kept, and the empty string gives the one
    piece [""]. *)
Fixpoint split (sep : ascii) (s : string) : list string :=
  match s with
  | EmptyString => [EmptyString]
  | String c rest =>
      if (c =? sep)%char then EmptyString :: split sep rest
      else match split sep rest with
           | [] => [String c EmptyString]
           | piece :: pieces => String c piece :: pieces
           end
  end.

(** The subscript [l[-1]]: the last item, [IndexError] on an empty list. *)
Fixpoint item_neg1 {A : Type} (l : list A) : result A :=
  match l with
  | [] => Raise IndexError
  | [x] => Ok x
  | _ :: l' => item_neg1 l'
  end.

(** Matching [[0-9]*$] at the start of [s].  Without [re.MULTILINE], [$]
    matches at the end of the string and just before a newline that ends
    the string.  The result is the text left after the match. *)
Fixpoint digits_then_eos (s : string) : option string :=
  match s with
  | EmptyString => Some EmptyString
  | String c rest =>
      if is_digit c then digits_then_eos rest
      else if (c =? newline)%char && (rest =? "") then Some s
      else None
  end.

(** Matching [[0-9]+$] at the start of [s]. *)
Definition revision_then_eos (s : string) : option string :=
  match s with
  | EmptyString => None
  | String c rest => if is_digit c then digits_then_eos rest else None
  end.

(** [re.sub(r'-[0-9]+$', '', s)]: the scan goes from left to right; a match
    is deleted and the scan goes on behind it, where the text is [""] or a
    single newline and no further match can start. *)
Fixpoint re_sub_revision (s : string) : string :=
  match s with
  | EmptyString => EmptyString
  | String c rest =>
      if (c =? "-")%char then
        match revision_then_eos rest with
        | Some left_over => left_over
        | None => String c (re_sub_revision rest)
        end
      else String c (re_sub_revision rest)
  end.

(** [c in s] for a character [c]. *)
Fixpoint contains (c : ascii) (s : string) : bool :=
  match s with
  | EmptyString => false
  | String a rest => (a =? c)%char || contains c rest
  end.

(** [x in l] for a list of strings. *)
Definition str_in (x : string) (l : list string) : bool :=
  existsb (String.eqb x) l.

(** [list.sort()] on a list of [str]: ascending in the order of [str],
    which compares character codes position by position and puts a proper
    prefix first. *)
Fixpoint insert_sorted (x : string) (l : list string) : list string :=
  match l with
  | [] => [x]
  | y :: l' => if String.leb x y then x :: l else y :: insert_sorted x l'
  end.

Fixpoint list_sort (l : list string) : list string :=
  match l with
  | [] => []
  | x :: l' => insert_sorted x (list_sort l')
  end.

(** The characters [c] of code below 256 with [c.isspace()]. *)
Definition is_space (c : ascii) : bool :=
  let n := nat_of_ascii c in
  ((9 <=? n) && (n <=? 13) || (28 <=? n) && (n <=? 32)
   || (n =? 133) || (n =? 160))%nat.

(** [str.split()] without a separator: the maximal runs of characters
    that are not white space. *)
Fixpoint split_ws (s : string) : list string :=
  match s with
  | EmptyString => []
  | String c rest =>
      if is_space c then split_ws rest
      else match rest with
           | EmptyString => [String c EmptyString]
           | String c' _ =>
               if is_space c' then String c EmptyString :: split_ws rest
               else match split_ws rest with
                    | word :: words => String c word :: words
                    | [] => [String c EmptyString]
                    end
           end
  end.

(** [k in d] and [d[k]] for a dict with [str] keys. *)
Fixpoint dict_has {V : Type} (k : string) (d : list (string * V)) : bool :=
  match d with
  | [] => false
  | (k', _) :: d' => (k' =? k) || dict_has k d'
  end.

Fixpoint dict_get {V : Type} (k : string) (d : list (string * V))
  : result V :=
  match d with
  | [] => Raise (KeyError k)
  | (k', v) :: d' => if k' =? k then Ok v else dict_get k d'
  end.

(** [sub in s] for two strings: [sub] starts at some position of [s]. *)
Fixpoint starts_with (sub s : string) : bool :=
  match sub, s with
  | EmptyString, _ => true
  | String _ _, EmptyString => false
  | String a sub', String b s' => (a =? b)%char && starts_with sub' s'
  end.

Fixpoint str_contains (sub s : string) : bool :=
  starts_with sub s
  || match s with
     | EmptyString => false
     | String _ rest => str_contains sub rest
     end.

(** A [for] loop whose body may raise. *)
Fixpoint for_each {A : Type} (l : list A) (body : A -> result unit)
  : result unit :=
  match l with
  | [] => Ok tt
  | x :: l' => _ <- body x ;; for_each l' body
  end.

End Py.

(** ** upgrade_utils.py: charm-name extraction *)

(** [extract_charm_name_from_url(charm_url)], lines 217-228.  The argument
    is [Some s] for a [str] and [None] for Python's [None], on which the
    attribute lookup [charm_url.split] raises. *)
Definition extract_charm_name_from_url (charm_url : option string)
  : result string :=
  url <- match charm_url with
         | Some s => Ok s
         | None => Raise AttributeError
         end ;;
  last_piece <- Py.item_neg1 (Py.split "/" url) ;;
  let charm_name := Py.re_sub_revision last_piece in
  Py.item_neg1 (Py.split ":" charm_name).

(** The text of [s] after the last occurrence of [c], the whole of [s] when
    [c] does not occur. *)
Fixpoint after_last (c : ascii) (s : string) : string :=
  match s with
  | EmptyString => EmptyString
  | String a rest =>
      if Py.contains c rest then after_last c rest
      else if (a =? c)%char then rest
      else s
  end.

(** The extraction in the order in which the specification words it: strip
    the trailing revision, then keep what follows the last [":"], then what
    follows the last ["/"]. *)
Definition extract_spec_order (s : string) : string :=
  after_last "/" (after_last ":" (Py.re_sub_revision s)).

(** A string of decimal digits. *)
Fixpoint all_digits (s : string) : bool :=
  match s with
  | EmptyString => true
  | String c rest => Py.is_digit c && all_digits rest
  end.

(** ** upgrade_utils.py: the upgrade-group planner *)

(** One entry of [status.applications]: the fields the planner reads,
    [app_config['charm']] and [app_config.get("subordinate-to")]. *)
Record AppConfig : Type := {
  charm : string;
  subordinate_to : list string
}.

(** A filter [filt(app, app_config, model_name=...)]: [Ok true] excludes
    the application.  The answer is a function of the arguments, as it
    is for the filters of this module; callables that keep state between
    calls are [StatefulFilter] below. *)
Definition Filter : Type :=
  string -> AppConfig -> option string -> result bool.

(** The value passed as [extra_filters]: [None], a list, a callable
    object that is no list, or any other object.  An object that is no
    list carries its own truth value: it is true for a function, and a
    callable object may make it false through [__bool__] or [__len__]. *)
Inductive py_extra_filters : Type :=
| ExtraNone
| ExtraList (fs : list Filter)
| ExtraCallable (f : Filter) (truth : bool)
| ExtraOther (truth : bool).

(** The truth value of [extra_filters], which line 98 tests first:
    [None] and the empty list are false, another object says for
    itself. *)
Definition truthy (extra_filters : py_extra_filters) : bool :=
  match extra_filters with
  | ExtraNone => false
  | ExtraList [] => false
  | ExtraList (_ :: _) => true
  | ExtraCallable _ b => b
  | ExtraOther b => b
  end.

Definition SERVICE_GROUPS : list (string * list string) :=
  [ ("Database Services", ["percona-cluster"; "mysql-innodb-cluster"]);
    ("Stateful Services", ["rabbitmq-server"; "ceph-mon"]);
    ("Core Identity", ["keystone"]);
    ("Control Plane",
      ["aodh"; "barbican"; "ceilometer"; "ceph-fs";
       "ceph-radosgw"; "cinder"; "designate";
       "designate-bind"; "glance"; "gnocchi"; "heat"; "manila";
       "manila-generic"; "neutron-api"; "neutron-gateway"; "placement";
       "nova-cloud-controller"; "openstack-dashboard"]);
    ("Data Plane",
      ["nova-compute"; "ceph-osd";
       "swift-proxy"; "swift-storage"]) ].

Definition UPGRADE_EXCLUDE_LIST : list string :=
  ["rabbitmq-server"; "percona-cluster"].

(** [_include_app], lines 61-65. *)
Fixpoint _include_app (app : string) (app_config : AppConfig)
  (filters : list Filter) (model_name : option string) : result bool :=
  match filters with
  | [] => Ok true
  | filt :: filters' =>
      excluded <- filt app app_config model_name ;;
      if excluded then Ok false
      else _include_app app app_config filters' model_name
  end.

(** [_filter_subordinates], lines 68-73. *)
Definition _filter_subordinates : Filter :=
  fun app app_config model_name =>
    match subordinate_to app_config with
    | [] => Ok false
    | _ :: _ => Ok true
    end.

(** [_filter_openstack_upgrade_list], lines 76-83. *)
Definition _filter_openstack_upgrade_list : Filter :=
  fun app app_config model_name =>
    charm_name <- extract_charm_name_from_url (Some (charm app_config)) ;;
    if Py.str_in app UPGRADE_EXCLUDE_LIST
       || Py.str_in charm_name UPGRADE_EXCLUDE_LIST
    then Ok true
    else Ok false.

(** [_apply_extra_filters], lines 97-107. *)
Definition _apply_extra_filters (filters : list Filter)
  (extra_filters : py_extra_filters) : result (list Filter) :=
  if truthy extra_filters then
    match extra_filters with
    | ExtraList fs => Ok (filters ++ fs)%list
    | ExtraCallable f _ => Ok (filters ++ [f])%list
    | _ => Raise (RuntimeError "extra_filters should be a list of callables")
    end
  else Ok filters.

(** [_filter_easyrsa], lines 110-115. *)
Definition _filter_easyrsa : Filter :=
  fun app app_config model_name =>
    charm_name <- extract_charm_name_from_url (Some (charm app_config)) ;;
    if Py.str_contains "easyrsa" charm_name then Ok true else Ok false.

(** [_filter_etcd], lines 118-123. *)
Definition _filter_etcd : Filter :=
  fun app app_config model_name =>
    charm_name <- extract_charm_name_from_url (Some (charm app_config)) ;;
    if Py.str_contains "etcd" charm_name then Ok true else Ok false.

(** [_filter_memcached], lines 126-131. *)
Definition _filter_memcached : Filter :=
  fun app app_config model_name =>
    charm_name <- extract_charm_name_from_url (Some (charm app_config)) ;;
    if Py.str_contains "memcached" charm_name then Ok true else Ok false.

(** The loop of [_build_service_groups] over [applications.items()] for
    one phase, lines 200-204. *)
Fixpoint collect_group (charms : list string)
  (applications : list (string * AppConfig)) : result (list string) :=
  match applications with
  | [] => Ok []
  | (app, app_config) :: rest =>
      charm_name <- extract_charm_name_from_url (Some (charm app_config)) ;;
      group <- collect_group charms rest ;;
      Ok (if Py.str_in charm_name charms then app :: group else group)
  end.

(** The loop over [SERVICE_GROUPS], lines 199-205. *)
Fixpoint named_groups (service_groups : list (string * list string))
  (applications : list (string * AppConfig))
  : result (list (string * list string)) :=
  match service_groups with
  | [] => Ok []
  | (phase_name, charms) :: rest =>
      group <- collect_group charms applications ;;
      groups <- named_groups rest applications ;;
      Ok ((phase_name, group) :: groups)
  end.

(** [_build_service_groups], lines 197-214. *)
Definition _build_service_groups (applications : list (string * AppConfig))
  : result (list (string * list string)) :=
  groups <- named_groups SERVICE_GROUPS applications ;;
  let values := List.concat (map snd groups) in
  let sweep_up :=
    filter (fun app => negb (Py.str_in app values)) (map fst applications) in
  let groups := (groups ++ [("sweep_up", sweep_up)])%list in
  Ok (map (fun g => (fst g, Py.list_sort (snd g))) groups).

Section Planner.

(** The orchestration client: [zaza.model.get_status(model_name)]
    [.applications] and the option names of
    [zaza.model.get_application_config(app, model_name)]. *)
Variable get_status : option string -> list (string * AppConfig).
Variable get_application_config :
  string -> option string -> list (string * string).

(** [_filter_non_openstack_services], lines 86-94. *)
Definition _filter_non_openstack_services : Filter :=
  fun app app_config model_name =>
    let charm_options := map fst (get_application_config app model_name) in
    let src_options := ["openstack-origin"; "source"] in
    match filter (fun x => Py.str_in x charm_options) src_options with
    | [] => Ok true
    | _ :: _ => Ok false
    end.

(** The loop of [get_upgrade_candidates], lines 55-57. *)
Fixpoint candidates_loop (items : list (string * AppConfig))
  (filters : list Filter) (model_name : option string)
  : result (list (string * AppConfig)) :=
  match items with
  | [] => Ok []
  | (app, app_config) :: rest =>
      included <- _include_app app app_config filters model_name ;;
      candidates <- candidates_loop rest filters model_name ;;
      Ok (if included then (app, app_config) :: candidates else candidates)
  end.

(** [get_upgrade_candidates], lines 41-58. *)
Definition get_upgrade_candidates (model_name : option string)
  (filters : option (list Filter)) : result (list (string * AppConfig)) :=
  let filters := match filters with None => [] | Some fs => fs end in
  candidates_loop (get_status model_name) filters model_name.

(** [get_upgrade_groups], lines 134-155. *)
Definition get_upgrade_groups (model_name : option string)
  (extra_filters : py_extra_filters) : result (list (string * list string)) :=
  let filters := [ _filter_subordinates;
                   _filter_openstack_upgrade_list;
                   _filter_non_openstack_services ] in
  filters <- _apply_extra_filters filters extra_filters ;;
  apps_in_model <- get_upgrade_candidates model_name (Some filters) ;;
  _build_service_groups apps_in_model.

(** [get_series_upgrade_groups], lines 158-175. *)
Definition get_series_upgrade_groups (model_name : option string)
  (extra_filters : py_extra_filters) : result (list (string * list string)) :=
  let filters := [ _filter_subordinates ] in
  filters <- _apply_extra_filters filters extra_filters ;;
  apps_in_model <- get_upgrade_candidates model_name (Some filters) ;;
  _build_service_groups apps_in_model.

(** [get_charm_upgrade_groups], lines 178-194. *)
Definition get_charm_upgrade_groups (model_name : option string)
  (extra_filters : py_extra_filters) : result (list (string * list string)) :=
  filters <- _apply_extra_filters [] extra_filters ;;
  apps_in_model <- get_upgrade_candidates model_name (Some filters) ;;
  _build_service_groups apps_in_model.

End Planner.

(** ** generic.py: process-id discovery and validation

    [zaza/openstack/utilities/generic.py] is exercised by the unit tests
    but its text is not part of the sources at hand; the two functions
    below follow the specification, sections 4.2 and 4.3, and the unit
    tests [test_get_process_id_list] and [test_validate_unit_process_ids]. *)

(** The mapping returned by [run_on_unit]. *)
Record CommandResult : Type := {
  Code : Z;
  Stdout : string;
  Stderr : string
}.

Definition ExpectedProcessMap : Type :=
  list (string * list (string * ExpectedCount)).

Definition ActualProcessMap : Type :=
  list (string * list (string * list string)).

Definition double_quote : string := String "034"%char EmptyString.

(** The command of [get_process_id_list], as the unit test asserts it:
    [pidof -x "name"], followed by [ || exit 0 && exit 1] when
    [expect_success] is false. *)
Definition pidof_command (process_name : string) (expect_success : bool)
  : string :=
  let cmd := "pidof -x " ++ double_quote ++ process_name ++ double_quote in
  if expect_success then cmd else cmd ++ " || exit 0 && exit 1".

Section ProcessIds.

(** The remote execution collaborator [model.run_on_unit(unit_name,
    command)]. *)
Variable run_on_unit : string -> string -> CommandResult.

(** Modelled from the spec: [get_process_id_list] of generic.py, whose
    text is missing.  It issues a remote [pidof] command, parses the
    white-space separated PIDs of the standard output, and fails with
    [ProcessIdsFailed] on a result code other than zero unless
    [expect_success] is false. *)
Definition get_process_id_list (unit_name process_name : string)
  (expect_success : bool) : result (list string) :=
  let cmd := pidof_command process_name expect_success in
  let results := run_on_unit unit_name cmd in
  if negb (Code results =? 0)%Z && expect_success
  then Raise ProcessIdsFailed
  else Ok (Py.split_ws (Stdout results)).

End ProcessIds.

(** Modelled from the spec: check 5 of [validate_unit_process_ids] for one
    process: an integer must equal the number of PIDs, a sequence must
    hold the number of PIDs. *)
Definition pid_count_ok (expected : ExpectedCount) (n_actual : nat) : bool :=
  match expected with
  | ExactCount n => (Z.of_nat n_actual =? n)%Z
  | OneOf ns => existsb (Z.eqb (Z.of_nat n_actual)) ns
  end.

(** Modelled from the spec: the checks 2 to 5 of
    [validate_unit_process_ids] for one entry [e = (unit, processes)] of
    the expected mapping: the unit is a key of the actual mapping; the
    two mappings of the unit have the same number of process names; every
    expected process name is a key of the actual mapping of the unit; and
    the number of PIDs of every process matches the expected value. *)
Definition check_unit_present (actual : ActualProcessMap)
  (e : string * list (string * ExpectedCount)) : result unit :=
  if Py.dict_has (fst e) actual then Ok tt else Raise (UnitNotFound (fst e)).

Definition check_name_count (actual : ActualProcessMap)
  (e : string * list (string * ExpectedCount)) : result unit :=
  a_procs <- Py.dict_get (fst e) actual ;;
  if (List.length (snd e) =? List.length a_procs)%nat then Ok tt
  else Raise ProcessNameCountMismatch.

Definition check_names (actual : ActualProcessMap)
  (e : string * list (string * ExpectedCount)) : result unit :=
  a_procs <- Py.dict_get (fst e) actual ;;
  Py.for_each (snd e) (fun p =>
    if Py.dict_has (fst p) a_procs then Ok tt
    else Raise (ProcessNameMismatch (fst p))).

Definition check_pids (actual : ActualProcessMap)
  (e : string * list (string * ExpectedCount)) : result unit :=
  a_procs <- Py.dict_get (fst e) actual ;;
  Py.for_each (snd e) (fun p =>
    a_pids <- Py.dict_get (fst p) a_procs ;;
    if pid_count_ok (snd p) (List.length a_pids) then Ok tt
    else Raise (PIDCountMismatch (fst e) (fst p) (snd p)
                  (List.length a_pids))).

(** Modelled from the spec: [validate_unit_process_ids] of generic.py,
    whose text is missing.  The five checks of section 4.2 run one after
    the other in the order of their numbers, each over the units (and the
    process names) in the order of the expected mapping, and the first
    failure raises. *)
Definition validate_unit_process_ids (expected : ExpectedProcessMap)
  (actual : ActualProcessMap) : result bool :=
  if negb (List.length expected =? List.length actual)%nat
  then Raise UnitCountMismatch
  else
    _ <- Py.for_each expected (check_unit_present actual) ;;
    _ <- Py.for_each expected (check_name_count actual) ;;
    _ <- Py.for_each expected (check_names actual) ;;
    _ <- Py.for_each expected (check_pids actual) ;;
    Ok true.

(** A character that the pattern [[0-9]+$] cannot pass over. *)
Definition outside_revision (c : ascii) : Prop :=
  Py.is_digit c = false /\ c <> Py.newline.

(** The order of [str] that [list.sort()] uses. *)
Definition str_le (a b : string) : Prop := String.leb a b = true.

(** The application's charm name, as [extract_charm_name_from_url]
    returns it on [app_config['charm']], is in [charms]. *)
Definition has_charm_in (charms : list string) (app_config : AppConfig)
  : bool :=
  match extract_charm_name_from_url (Some (charm app_config)) with
  | Ok charm_name => Py.str_in charm_name charms
  | Raise _ => false
  end.

(** The names of the applications whose charm name is in [charms], in the
    order of the mapping. *)
Definition apps_with_charm_in (charms : list string)
  (applications : list (string * AppConfig)) : list string :=
  map fst (filter (fun a => has_charm_in charms (snd a)) applications).

(** The names of the applications whose charm name is in no charm list of
    [SERVICE_GROUPS]. *)
Definition apps_without_group (applications : list (string * AppConfig))
  : list string :=
  map fst
    (filter (fun a =>
               negb (has_charm_in (List.concat (map snd SERVICE_GROUPS))
                       (snd a)))
       applications).

(** [_include_app] returned [True]. *)
Definition survives (filters : list Filter) (model_name : option string)
  (a : string * AppConfig) : bool :=
  match _include_app (fst a) (snd a) filters model_name with
  | Ok true => true
  | _ => false
  end.

(** The part that the three entry points share: the candidates of the
    status under a filter chain, placed into their groups (lines 151-155,
    171-175 and 190-194). *)
Definition plan_groups
  (get_status : option string -> list (string * AppConfig))
  (model_name : option string) (filters : list Filter)
  : result (list (string * list string)) :=
  apps_in_model <- get_upgrade_candidates get_status model_name
                     (Some filters) ;;
  _build_service_groups apps_in_model.

(** No name is in two of the lists [cs]. *)
Definition disjointb (c c' : list string) : bool :=
  forallb (fun n => negb (Py.str_in n c')) c.

Fixpoint pairwise_disjointb (cs : list (list string)) : bool :=
  match cs with
  | [] => true
  | c :: cs' => forallb (disjointb c) cs' && pairwise_disjointb cs'
  end.

(** The later predicates fail where an earlier one holds. *)
Definition exclusive {A : Type} (ps : list (A -> bool)) : Prop :=
  ForallOrdPairs (fun p p' => forall x, p x = true -> p' x = false) ps.

(** A small deployment and a filter chain, used to instantiate the
    statements below. *)
Definition example_status : list (string * AppConfig) :=
  [ ("keystone", {| charm := "cs:keystone-3"; subordinate_to := [] |});
    ("mq", {| charm := "cs:rabbitmq-server-97"; subordinate_to := [] |});
    ("ntp", {| charm := "cs:ntp-4"; subordinate_to := ["keystone"] |});
    ("vault", {| charm := "local:bionic/vault"; subordinate_to := [] |}) ].

Definition example_filters : list Filter :=
  [ _filter_subordinates; _filter_openstack_upgrade_list ].


(** ** Filters that keep state

    A callable given as a filter may read and change state between its
    calls (a counter, a log of the calls).  The definitions below are the
    loops of lines 55-65 once more, with the state [W] that the callables
    share passed from call to call. *)

Definition StatefulFilter (W : Type) : Type :=
  string -> AppConfig -> option string -> W -> result bool * W.

(** [_include_app], lines 61-65, for filters with state. *)
Fixpoint _include_app_st {W : Type} (app : string) (app_config : AppConfig)
  (filters : list (StatefulFilter W)) (model_name : option string) (w : W)
  : result bool * W :=
  match filters with
  | [] => (Ok true, w)
  | filt :: filters' =>
      match filt app app_config model_name w with
      | (Ok true, w') => (Ok false, w')
      | (Ok false, w') => _include_app_st app app_config filters' model_name w'
      | (Raise e, w') => (Raise e, w')
      end
  end.

(** The loop of [get_upgrade_candidates], lines 55-57, for filters with
    state. *)
Fixpoint candidates_loop_st {W : Type} (items : list (string * AppConfig))
  (filters : list (StatefulFilter W)) (model_name : option string) (w : W)
  : result (list (string * AppConfig)) * W :=
  match items with
  | [] => (Ok [], w)
  | (app, app_config) :: rest =>
      match _include_app_st app app_config filters model_name w with
      | (Ok included, w1) =>
          match candidates_loop_st rest filters model_name w1 with
          | (Ok candidates, w2) =>
              (Ok (if included then (app, app_config) :: candidates
                   else candidates), w2)
          | (Raise e, w2) => (Raise e, w2)
          end
      | (Raise e, w1) => (Raise e, w1)
      end
  end.

(** [get_upgrade_candidates], lines 41-58, for filters with state. *)
Definition get_upgrade_candidates_st {W : Type}
  (get_status : option string -> list (string * AppConfig))
  (model_name : option string) (filters : option (list (StatefulFilter W)))
  (w : W) : result (list (string * AppConfig)) * W :=
  let filters := match filters with None => [] | Some fs => fs end in
  candidates_loop_st (get_status model_name) filters model_name w.

(** The filter [filt] answers as the function [g] of its arguments does
    and leaves the state as it is. *)
Definition answers_as {W : Type} (filt : StatefulFilter W) (g : Filter)
  : Prop :=
  forall app cfg model_name w, filt app cfg model_name w
                               = (g app cfg model_name, w).

(** A pure filter: its answer depends on its arguments only, and a call
    changes no state. *)
Definition pure_filter {W : Type} (filt : StatefulFilter W) : Prop :=
  exists g : Filter, answers_as filt g.

(** A function of the arguments, as a filter with state. *)
Definition lift_filter {W : Type} (g : Filter) : StatefulFilter W :=
  fun app cfg model_name w => (g app cfg model_name, w).

(** Filters over a counter of calls: one that excludes on its first call
    only, one that excludes the application [a], one that counts its
    calls and excludes nothing, and one that excludes when exactly one
    call has been counted. *)
Definition first_call_only : StatefulFilter nat :=
  fun app cfg model_name n => (Ok (n =? 0)%nat, S n).

Definition named_a : StatefulFilter nat :=
  fun app cfg model_name n => (Ok (app =? "a")%string, n).

Definition count_calls : StatefulFilter nat :=
  fun app cfg model_name n => (Ok false, S n).

Definition after_one_call : StatefulFilter nat :=
  fun app cfg model_name n => (Ok (n =? 1)%nat, n).

Definition two_apps : list (string * AppConfig) :=
  [ ("a", {| charm := "cs:a-1"; subordinate_to := [] |});
    ("b", {| charm := "cs:b-1"; subordinate_to := [] |}) ].

(** A deployment with both charms of Database Services and of Stateful
    Services. *)
Definition example_cluster : list (string * AppConfig) :=
  [ ("db", {| charm := "cs:mysql-innodb-cluster-3"; subordinate_to := [] |});
    ("pxc", {| charm := "cs:percona-cluster-12"; subordinate_to := [] |});
    ("mon", {| charm := "cs:ceph-mon-5"; subordinate_to := [] |});
    ("mq", {| charm := "cs:rabbitmq-server-9"; subordinate_to := [] |});
    ("keystone", {| charm := "cs:keystone-3"; subordinate_to := [] |}) ].

(** The checks 2 to 5 of [validate_unit_process_ids] for one entry
    [e = (unit, processes)] of the expected mapping. *)
Definition unit_present (actual : ActualProcessMap)
  (e : string * list (string * ExpectedCount)) : Prop :=
  Py.dict_has (fst e) actual = true.

Definition name_count_ok (actual : ActualProcessMap)
  (e : string * list (string * ExpectedCount)) : Prop :=
  exists a_procs,
    Py.dict_get (fst e) actual = Ok a_procs
    /\ List.length (snd e) = List.length a_procs.

Definition names_present (actual : ActualProcessMap)
  (e : string * list (string * ExpectedCount)) : Prop :=
  exists a_procs,
    Py.dict_get (fst e) actual = Ok a_procs
    /\ Forall (fun p => Py.dict_has (fst p) a_procs = true) (snd e).

Definition pid_counts_ok (actual : ActualProcessMap)
  (e : string * list (string * ExpectedCount)) : Prop :=
  exists a_procs,
    Py.dict_get (fst e) actual = Ok a_procs
    /\ Forall (fun p =>
                 exists a_pids,
                   Py.dict_get (fst p) a_procs = Ok a_pids
                   /\ pid_count_ok (snd p) (List.length a_pids) = true)
         (snd e).

(** The mappings of [test_validate_unit_process_ids]. *)
Definition test_expected : ExpectedProcessMap :=
  [ ("ceph-osd/0", [("ceph-osd", ExactCount 2)]);
    ("unit/0", [("pr1", ExactCount 2); ("pr2", OneOf [1%Z; 2%Z])]) ].

Definition test_actual (unit0 : string * list (string * list string))
  : ActualProcessMap :=
  [ ("ceph-osd/0", [("ceph-osd", ["1"; "2"])]); unit0 ].

(** A word: a non-empty string without white space. *)
Fixpoint no_space (w : string) : bool :=
  match w with
  | EmptyString => true
  | String c rest => negb (Py.is_space c) && no_space rest
  end.

Definition is_word (w : string) : Prop := w <> "" /\ no_space w = true.

(** * Properties *)

#[local] Arguments Ascii.eqb : simpl never.
#[local] Arguments String.eqb : simpl never.
#[local] Arguments String.leb : simpl never.

(** ** The error monad *)

Lemma bind_Ok_inv {A B : Type} (c : result A) (k : A -> result B) (b : B) :
  bind c k = Ok b -> exists a, c = Ok a /\ k a = Ok b.
Proof.
  destruct c as [a|e]; simpl; intros H; [eauto | discriminate].
Qed.

(** ** Splitting and the last piece *)

Lemma split_not_nil (c : ascii) (s : string) : Py.split c s <> [].
Proof.
  destruct s as [|a s]; simpl; [discriminate|].
  destruct (a =? c)%char; [discriminate|].
  destruct (Py.split c s); discriminate.
Qed.

Lemma split_without_sep (c : ascii) (s : string) :
  Py.contains c s = false -> Py.split c s = [s].
Proof.
  induction s as [|a s IH]; simpl; intros H; [reflexivity|].
  apply orb_false_iff in H as [Ha Hs].
  rewrite Ha, (IH Hs). reflexivity.
Qed.

Lemma split_with_sep (c : ascii) (s : string) :
  Py.contains c s = true ->
  exists p q l, Py.split c s = p :: q :: l.
Proof.
  induction s as [|a s IH]; simpl; intros H; [discriminate|].
  destruct (a =? c)%char eqn:Ha; simpl in H.
  - destruct (Py.split c s) as [|q l] eqn:E.
    + now apply split_not_nil in E.
    + eauto.
  - destruct (IH H) as (p & q & l & E). rewrite E. eauto.
Qed.

Lemma after_last_without_sep (c : ascii) (s : string) :
  Py.contains c s = false -> after_last c s = s.
Proof.
  destruct s as [|a s]; simpl; intros H; [reflexivity|].
  apply orb_false_iff in H as [Ha Hs].
  now rewrite Hs, Ha.
Qed.

(** [s.split(c)[-1]] never raises and is the text after the last [c]. *)
Lemma item_neg1_split (c : ascii) (s : string) :
  Py.item_neg1 (Py.split c s) = Ok (after_last c s).
Proof.
  induction s as [|a s IH]; [reflexivity|].
  cbn [Py.split after_last].
  destruct (Py.contains c s) eqn:Hs.
  - destruct (split_with_sep c s Hs) as (p & q & l & E).
    rewrite E in IH |- *.
    destruct (a =? c)%char; exact IH.
  - rewrite (split_without_sep c s Hs).
    destruct (a =? c)%char; reflexivity.
Qed.

Lemma string_append_assoc (s t u : string) : (s ++ t) ++ u = s ++ t ++ u.
Proof.
  induction s as [|a s IH]; simpl; [reflexivity | now rewrite IH].
Qed.

Lemma contains_append (c : ascii) (s t : string) :
  Py.contains c (s ++ t) = Py.contains c s || Py.contains c t.
Proof.
  induction s as [|a s IH]; simpl; [reflexivity|].
  now rewrite IH, orb_assoc.
Qed.

Lemma contains_after_last (c d : ascii) (s : string) :
  Py.contains c s = false -> Py.contains c (after_last d s) = false.
Proof.
  induction s as [|a s IH]; simpl; intros H; [reflexivity|].
  apply orb_false_iff in H as [Ha Hs].
  destruct (Py.contains d s); [auto|].
  destruct (a =? d)%char; [assumption|].
  simpl. now rewrite Ha, Hs.
Qed.

Lemma after_last_append (c : ascii) (p t : string) :
  Py.contains c t = false -> after_last c (p ++ String c t) = t.
Proof.
  intros Ht. induction p as [|a p IH]; simpl.
  - now rewrite Ht, Ascii.eqb_refl.
  - rewrite contains_append. simpl.
    now rewrite Ascii.eqb_refl, orb_true_r.
Qed.

(** Taking the text after the last [c] and after the last [d] commute. *)
Lemma after_last_comm (c d : ascii) (s : string) :
  c <> d ->
  after_last c (after_last d s) = after_last d (after_last c s).
Proof.
  intros Hcd. induction s as [|a s IH]; [reflexivity|].
  cbn [after_last].
  destruct (Py.contains d s) eqn:Hd, (Py.contains c s) eqn:Hc.
  - exact IH.
  - rewrite IH, (after_last_without_sep c s Hc).
    destruct (a =? c)%char; [reflexivity|].
    cbn [after_last]. now rewrite Hd.
  - rewrite <- IH, (after_last_without_sep d s Hd).
    destruct (a =? d)%char; [reflexivity|].
    cbn [after_last]. now rewrite Hc.
  - destruct (Ascii.eqb_spec a d) as [Ed|Had], (Ascii.eqb_spec a c) as [Ec|Hac].
    + now subst.
    + subst a. rewrite (after_last_without_sep c s Hc).
      cbn [after_last]. now rewrite Hd, Ascii.eqb_refl.
    + subst a. rewrite (after_last_without_sep d s Hd).
      cbn [after_last]. now rewrite Hc, Ascii.eqb_refl.
    + cbn [after_last]. rewrite Hc, Hd.
      apply Ascii.eqb_neq in Had, Hac. now rewrite Had, Hac.
Qed.

(** ** The revision suffix *)

Lemma slash_outside_revision : outside_revision "/".
Proof. split; [reflexivity | discriminate]. Qed.

Lemma colon_outside_revision : outside_revision ":".
Proof. split; [reflexivity | discriminate]. Qed.

Lemma dash_outside_revision : outside_revision "-".
Proof. split; [reflexivity | discriminate]. Qed.

Lemma digits_then_eos_contains (c : ascii) (s r : string) :
  outside_revision c ->
  Py.digits_then_eos s = Some r ->
  Py.contains c s = false /\ Py.contains c r = false.
Proof.
  intros [Hdig Hnl]. revert r.
  induction s as [|a s IH]; simpl; intros r H.
  - injection H as <-. auto.
  - destruct (Py.is_digit a) eqn:Ha.
    + destruct (IH r H) as [Hs Hr]. split; [|exact Hr].
      rewrite Hs, orb_false_r. apply Ascii.eqb_neq. intros ->. congruence.
    + destruct (Ascii.eqb_spec a Py.newline) as [->|]; [|discriminate].
      destruct (String.eqb_spec s "") as [->|]; [|discriminate].
      simpl in H. injection H as <-.
      assert (E : Py.contains c (String Py.newline "") = false).
      { cbn [Py.contains]. rewrite orb_false_r.
        apply Ascii.eqb_neq. congruence. }
      now split.
Qed.

Lemma revision_then_eos_contains (c : ascii) (s r : string) :
  outside_revision c ->
  Py.revision_then_eos s = Some r ->
  Py.contains c s = false /\ Py.contains c r = false.
Proof.
  intros Hc. destruct s as [|a s]; simpl; [discriminate|].
  destruct (Py.is_digit a) eqn:Ha; [|discriminate].
  intros H. destruct (digits_then_eos_contains c s r Hc H) as [Hs Hr].
  split; [|exact Hr].
  rewrite Hs, orb_false_r. apply Ascii.eqb_neq. intros ->.
  destruct Hc. congruence.
Qed.

(** The substitution neither removes nor adds a separator. *)
Lemma contains_re_sub (c : ascii) (s : string) :
  outside_revision c -> c <> "-"%char ->
  Py.contains c (Py.re_sub_revision s) = Py.contains c s.
Proof.
  intros Hc Hdash. induction s as [|a s IH]; [reflexivity|].
  cbn [Py.re_sub_revision].
  destruct (Ascii.eqb_spec a "-") as [->|Ha].
  - destruct (Py.revision_then_eos s) as [r|] eqn:E.
    + destruct (revision_then_eos_contains c s r Hc E) as [Hs Hr].
      simpl. rewrite Hs, Hr, orb_false_r.
      symmetry. apply Ascii.eqb_neq. congruence.
    + simpl. now rewrite IH.
  - simpl. now rewrite IH.
Qed.

(** The substitution commutes with taking the text after the last
    separator: a revision suffix holds no separator. *)
Lemma re_sub_after_last (c : ascii) (s : string) :
  outside_revision c -> c <> "-"%char ->
  Py.re_sub_revision (after_last c s) = after_last c (Py.re_sub_revision s).
Proof.
  intros Hc Hdash. induction s as [|a s IH]; [reflexivity|].
  cbn [after_last].
  assert (Hkeep : Py.contains c s = true ->
            Py.re_sub_revision (String a s)
            = String a (Py.re_sub_revision s)).
  { intros Hs. cbn [Py.re_sub_revision].
    destruct (a =? "-")%char; [|reflexivity].
    destruct (Py.revision_then_eos s) as [r|] eqn:E; [|reflexivity].
    apply (revision_then_eos_contains c) in E as [E _]; congruence. }
  destruct (Py.contains c s) eqn:Hs.
  - rewrite (Hkeep eq_refl), IH. cbn [after_last].
    now rewrite (contains_re_sub c s Hc Hdash), Hs.
  - destruct (Ascii.eqb_spec a c) as [->|Hac].
    + cbn [Py.re_sub_revision].
      apply Ascii.eqb_neq in Hdash. rewrite Hdash.
      cbn [after_last].
      now rewrite (contains_re_sub c s Hc), Hs, Ascii.eqb_refl
        by (now apply Ascii.eqb_neq).
    + symmetry. apply after_last_without_sep.
      rewrite (contains_re_sub c _ Hc Hdash). simpl.
      apply Ascii.eqb_neq in Hac. now rewrite Hac, Hs.
Qed.

Lemma all_digits_contains (c : ascii) (s : string) :
  Py.is_digit c = false -> all_digits s = true -> Py.contains c s = false.
Proof.
  intros Hc. induction s as [|a s IH]; simpl; intros H; [reflexivity|].
  apply andb_true_iff in H as [Ha Hs].
  rewrite (IH Hs), orb_false_r. apply Ascii.eqb_neq. congruence.
Qed.

Lemma digits_then_eos_all_digits (s : string) :
  all_digits s = true -> Py.digits_then_eos s = Some "".
Proof.
  induction s as [|a s IH]; simpl; intros H; [reflexivity|].
  apply andb_true_iff in H as [Ha Hs]. now rewrite Ha, IH.
Qed.

(** A trailing ["-"] followed by digits is what the substitution
    deletes, whatever stands before it. *)
Lemma re_sub_strips_revision (s rev : string) :
  rev <> "" -> all_digits rev = true ->
  Py.re_sub_revision (s ++ "-" ++ rev) = s.
Proof.
  intros Hne Hrev. change ("-" ++ rev) with (String "-" rev).
  induction s as [|a s IH].
  - cbn. destruct rev as [|d rev]; [congruence|].
    cbn in Hrev |- *. apply andb_true_iff in Hrev as [Hd Hrev].
    now rewrite Hd, digits_then_eos_all_digits.
  - cbn [append Py.re_sub_revision]. rewrite IH.
    destruct (a =? "-")%char; [|reflexivity].
    destruct (Py.revision_then_eos (s ++ String "-" rev)) as [r|] eqn:E;
      [|reflexivity].
    apply (revision_then_eos_contains "-") in E as [E _];
      [|exact dash_outside_revision].
    rewrite contains_append in E. cbn [Py.contains] in E.
    now rewrite Ascii.eqb_refl, orb_true_r in E.
Qed.

(** ** Charm-name extraction *)

Lemma extract_charm_name_from_url_eq (s : string) :
  extract_charm_name_from_url (Some s)
  = Ok (after_last ":" (Py.re_sub_revision (after_last "/" s))).
Proof.
  unfold extract_charm_name_from_url. simpl.
  rewrite item_neg1_split. simpl. apply item_neg1_split.
Qed.

Lemma extract_spec_order_eq (s : string) :
  extract_spec_order s
  = after_last ":" (Py.re_sub_revision (after_last "/" s)).
Proof.
  unfold extract_spec_order.
  rewrite (re_sub_after_last "/" s slash_outside_revision) by discriminate.
  apply after_last_comm. discriminate.
Qed.

(** C4: the extraction yields ["heat"] on the two example URLs; on every
    string it equals the pipeline of the specification (strip the
    trailing revision, keep the text after the last [":"], then after the
    last ["/"]); and it returns [name] for every URL that ends in a
    separator (["/"] or [":"]), [name] and a ["-<digits>"] revision, and
    for every URL that ends in a separator and a [name] without revision. *)
Theorem extract_charm_name_from_url_strips :
  extract_charm_name_from_url (Some "local:bionic/heat-12") = Ok "heat" /\
  extract_charm_name_from_url (Some "cs:heat") = Ok "heat" /\
  (forall s : string,
      extract_charm_name_from_url (Some s) = Ok (extract_spec_order s)) /\
  (forall (prefix name rev : string) (sep : ascii),
      sep = "/"%char \/ sep = ":"%char ->
      Py.contains "/" name = false -> Py.contains ":" name = false ->
      (rev <> "" /\ all_digits rev = true
       -> extract_charm_name_from_url
            (Some (prefix ++ String sep name ++ "-" ++ rev)) = Ok name) /\
      (Py.re_sub_revision name = name
       -> extract_charm_name_from_url
            (Some (prefix ++ String sep name)) = Ok name)).
Proof.
  assert (Hsep : forall (prefix name : string) (sep : ascii),
             sep = "/"%char \/ sep = ":"%char ->
             Py.contains "/" name = false -> Py.contains ":" name = false ->
             after_last ":" (after_last "/" (prefix ++ String sep name))
             = name).
  { intros prefix name sep [-> | ->] Hslash Hcolon.
    - rewrite (after_last_append "/" prefix name Hslash).
      now apply after_last_without_sep.
    - rewrite after_last_comm by discriminate.
      rewrite (after_last_append ":" prefix name Hcolon).
      now apply after_last_without_sep. }
  split; [reflexivity|]. split; [reflexivity|]. split.
  - intros s. now rewrite extract_charm_name_from_url_eq, extract_spec_order_eq.
  - intros prefix name rev sep Hs Hslash Hcolon.
    split.
    + intros [Hne Hrev].
      rewrite extract_charm_name_from_url_eq.
      rewrite (re_sub_after_last "/" _ slash_outside_revision) by discriminate.
      replace (prefix ++ String sep name ++ "-" ++ rev)
        with ((prefix ++ String sep name) ++ "-" ++ rev).
      * rewrite (re_sub_strips_revision _ rev Hne Hrev).
        f_equal. now apply Hsep.
      * apply string_append_assoc.
    + intros Hname.
      rewrite extract_charm_name_from_url_eq.
      rewrite <- (re_sub_after_last ":" _ colon_outside_revision)
        by discriminate.
      rewrite (Hsep prefix name sep Hs Hslash Hcolon).
      now rewrite Hname.
Qed.

(** C9: on every string, malformed or not, the extraction returns a name;
    the only argument on which it raises is [None] (so a failing argument
    is empty or [None]), where the attribute lookup fails.  The empty
    string itself gives the empty name. *)
Theorem extract_charm_name_from_url_total :
  (forall s : string,
      exists name, extract_charm_name_from_url (Some s) = Ok name) /\
  (forall (u : option string) (e : exn),
      extract_charm_name_from_url u = Raise e -> u = None \/ u = Some "") /\
  extract_charm_name_from_url None = Raise AttributeError /\
  extract_charm_name_from_url (Some "") = Ok "".
Proof.
  split; [|split; [|split; reflexivity]].
  - intros s. rewrite extract_charm_name_from_url_eq. eauto.
  - intros [s|] e H; [|now left].
    rewrite extract_charm_name_from_url_eq in H. discriminate.
Qed.

(** ** Sorting *)

Lemma insert_sorted_perm (x : string) (l : list string) :
  Permutation (Py.insert_sorted x l) (x :: l).
Proof.
  induction l as [|y l IH]; simpl; [reflexivity|].
  destruct (String.leb x y); [reflexivity|].
  rewrite IH. apply perm_swap.
Qed.

Lemma list_sort_perm (l : list string) : Permutation (Py.list_sort l) l.
Proof.
  induction l as [|x l IH]; simpl; [reflexivity|].
  rewrite insert_sorted_perm. now constructor.
Qed.

Lemma str_le_total (a b : string) : str_le a b \/ str_le b a.
Proof. apply String.leb_total. Qed.

Lemma insert_sorted_HdRel (x a : string) (l : list string) :
  str_le a x -> HdRel str_le a l -> HdRel str_le a (Py.insert_sorted x l).
Proof.
  intros Hax Hl. destruct l as [|y l]; simpl; [now constructor|].
  destruct (String.leb x y); constructor; [assumption|].
  now inversion Hl.
Qed.

Lemma insert_sorted_Sorted (x : string) (l : list string) :
  Sorted str_le l -> Sorted str_le (Py.insert_sorted x l).
Proof.
  induction 1 as [|y l Hl IH Hy]; simpl; [repeat constructor|].
  destruct (String.leb x y) eqn:E.
  - repeat constructor; assumption.
  - constructor; [exact IH|].
    apply insert_sorted_HdRel; [|exact Hy].
    destruct (str_le_total x y) as [H|H]; [|exact H].
    unfold str_le in H. congruence.
Qed.

Lemma list_sort_Sorted (l : list string) : Sorted str_le (Py.list_sort l).
Proof.
  induction l as [|x l IH]; simpl; [constructor|].
  now apply insert_sorted_Sorted.
Qed.

Lemma concat_sort_perm (gs : list (list string)) :
  Permutation (List.concat (map Py.list_sort gs)) (List.concat gs).
Proof.
  induction gs as [|g gs IH]; simpl; [reflexivity|].
  apply Permutation_app; [apply list_sort_perm | exact IH].
Qed.

Lemma str_in_In (x : string) (l : list string) :
  Py.str_in x l = true <-> In x l.
Proof.
  unfold Py.str_in. rewrite existsb_exists. split.
  - intros (y & Hy & E). apply String.eqb_eq in E. now subst.
  - intros H. exists x. split; [exact H | apply String.eqb_refl].
Qed.

Lemma str_in_app (x : string) (l1 l2 : list string) :
  Py.str_in x (l1 ++ l2) = Py.str_in x l1 || Py.str_in x l2.
Proof. apply existsb_app. Qed.

(** ** Building the service groups *)

Lemma has_charm_in_spec (charms : list string) (app_config : AppConfig) :
  has_charm_in charms app_config = true <->
  exists charm_name,
    extract_charm_name_from_url (Some (charm app_config)) = Ok charm_name
    /\ In charm_name charms.
Proof.
  unfold has_charm_in. rewrite extract_charm_name_from_url_eq.
  rewrite str_in_In. split.
  - eauto.
  - intros (n & E & Hn). now injection E as ->.
Qed.

Lemma has_charm_in_app (c1 c2 : list string) (app_config : AppConfig) :
  has_charm_in (c1 ++ c2) app_config
  = has_charm_in c1 app_config || has_charm_in c2 app_config.
Proof.
  unfold has_charm_in. rewrite extract_charm_name_from_url_eq.
  apply str_in_app.
Qed.

Lemma has_charm_in_concat (cs : list (list string)) (app_config : AppConfig) :
  has_charm_in (List.concat cs) app_config
  = existsb (fun c => has_charm_in c app_config) cs.
Proof.
  induction cs as [|c cs IH]; simpl.
  - unfold has_charm_in. now rewrite extract_charm_name_from_url_eq.
  - now rewrite has_charm_in_app, IH.
Qed.

Lemma collect_group_eq (charms : list string)
  (applications : list (string * AppConfig)) :
  collect_group charms applications
  = Ok (apps_with_charm_in charms applications).
Proof.
  unfold apps_with_charm_in.
  induction applications as [|[app cfg] rest IH]; [reflexivity|].
  cbn [collect_group filter snd]. rewrite IH. unfold has_charm_in.
  rewrite extract_charm_name_from_url_eq. cbn [bind].
  now destruct (Py.str_in _ charms).
Qed.

Lemma named_groups_eq (service_groups : list (string * list string))
  (applications : list (string * AppConfig)) :
  named_groups service_groups applications
  = Ok (map (fun sg => (fst sg, apps_with_charm_in (snd sg) applications))
          service_groups).
Proof.
  induction service_groups as [|[name charms] rest IH]; [reflexivity|].
  cbn [named_groups map fst snd].
  now rewrite collect_group_eq, IH.
Qed.

(** The groups before sorting: one per phase and the sweep-up group that
    the code computes from the names already placed. *)
Lemma build_service_groups_eq (applications : list (string * AppConfig)) :
  _build_service_groups applications
  = Ok (map (fun g => (fst g, Py.list_sort (snd g)))
          (map (fun sg => (fst sg, apps_with_charm_in (snd sg) applications))
             SERVICE_GROUPS
           ++ [("sweep_up",
                filter
                  (fun app =>
                     negb (Py.str_in app
                             (List.concat
                                (map (fun sg =>
                                        apps_with_charm_in (snd sg)
                                          applications)
                                   SERVICE_GROUPS))))
                  (map fst applications))])).
Proof.
  unfold _build_service_groups. rewrite named_groups_eq. cbn [bind].
  now rewrite map_map.
Qed.

(** With distinct keys, a name belongs to one entry of the mapping. *)
Lemma NoDup_keys_unique {V : Type} (d : list (string * V)) (k : string)
  (v v' : V) :
  NoDup (map fst d) -> In (k, v) d -> In (k, v') d -> v = v'.
Proof.
  induction d as [|[k0 v0] d IH]; simpl; intros Hnd H1 H2; [contradiction|].
  inversion Hnd as [|? ? Hnotin Hnd']; subst.
  destruct H1 as [E1|H1], H2 as [E2|H2].
  - congruence.
  - injection E1 as -> ->. exfalso. apply Hnotin.
    now apply (in_map fst) in H2.
  - injection E2 as -> ->. exfalso. apply Hnotin.
    now apply (in_map fst) in H1.
  - now apply IH.
Qed.

Lemma In_apps_with_charm_in (charms : list string)
  (applications : list (string * AppConfig)) (app : string) :
  In app (apps_with_charm_in charms applications) <->
  exists cfg, In (app, cfg) applications /\ has_charm_in charms cfg = true.
Proof.
  unfold apps_with_charm_in. rewrite in_map_iff. split.
  - intros ([a cfg] & E & H). simpl in E. subst a.
    apply filter_In in H as [H1 H2]. eauto.
  - intros (cfg & H1 & H2). exists (app, cfg). split; [reflexivity|].
    apply filter_In. auto.
Qed.

(** The sweep-up group of the code, computed from names, is the list of
    the applications whose charm name is in no charm list. *)
Lemma sweep_up_eq (cs : list (list string))
  (applications : list (string * AppConfig)) :
  NoDup (map fst applications) ->
  filter
    (fun app =>
       negb (Py.str_in app
               (List.concat
                  (map (fun c => apps_with_charm_in c applications) cs))))
    (map fst applications)
  = map fst
      (filter (fun a => negb (has_charm_in (List.concat cs) (snd a)))
         applications).
Proof.
  intros Hnd.
  set (placed := List.concat _).
  assert (Hplaced : forall app cfg, In (app, cfg) applications ->
            Py.str_in app placed = has_charm_in (List.concat cs) cfg).
  { intros app cfg Hin. apply eq_true_iff_eq.
    rewrite str_in_In. unfold placed. rewrite in_concat.
    rewrite has_charm_in_concat, existsb_exists. split.
    - intros (g & Hg & Happ). apply in_map_iff in Hg as (c & <- & Hc).
      apply In_apps_with_charm_in in Happ as (cfg' & Hin' & Hc').
      exists c. split; [exact Hc|].
      now rewrite (NoDup_keys_unique applications app cfg cfg' Hnd Hin Hin').
    - intros (c & Hc & Hcfg).
      exists (apps_with_charm_in c applications). split.
      + apply in_map_iff. eauto.
      + apply In_apps_with_charm_in. eauto. }
  clear Hnd. revert Hplaced. generalize placed. clear placed. intros placed.
  induction applications as [|[app cfg] rest IH]; intros Hplaced;
    [reflexivity|].
  cbn [map filter fst snd].
  rewrite (Hplaced app cfg) by now left.
  rewrite IH by (intros; apply Hplaced; now right).
  now destruct (has_charm_in (List.concat cs) cfg).
Qed.

(** ** Splitting a list by exclusive predicates *)

Section Pieces.

Context {A : Type}.

Lemma pieces_skip (ps : list (A -> bool)) (a : A) (l : list A) :
  Forall (fun p => p a = false) ps ->
  map (fun p => filter p (a :: l)) ps = map (fun p => filter p l) ps.
Proof.
  induction 1 as [|p ps Hp _ IH]; cbn [map]; [reflexivity|].
  rewrite IH. cbn [filter]. now rewrite Hp.
Qed.

Lemma pieces_cons (ps : list (A -> bool)) (q : A -> bool) (a : A)
  (l : list A) :
  exclusive ps ->
  q a = negb (existsb (fun p => p a) ps) ->
  Permutation
    (List.concat (map (fun p => filter p (a :: l)) ps) ++ filter q (a :: l))
    (a :: List.concat (map (fun p => filter p l) ps) ++ filter q l).
Proof.
  induction 1 as [|p ps Hp Hps IH]; intros Hq.
  - simpl in *. now rewrite Hq.
  - cbn [map List.concat existsb] in *.
    destruct (p a) eqn:Hpa.
    + assert (Hrest : Forall (fun p' => p' a = false) ps).
      { apply Forall_forall. intros p' Hp'.
        rewrite Forall_forall in Hp. now apply Hp. }
      rewrite (pieces_skip ps a l Hrest).
      cbn [filter]. rewrite Hpa. simpl in Hq. rewrite Hq.
      reflexivity.
    + cbn [filter]. rewrite Hpa. rewrite <- !app_assoc.
      rewrite (IH Hq). symmetry. apply Permutation_middle.
Qed.

Lemma pieces_perm (ps : list (A -> bool)) (q : A -> bool) (l : list A) :
  exclusive ps ->
  (forall x, q x = negb (existsb (fun p => p x) ps)) ->
  Permutation
    (List.concat (map (fun p => filter p l) ps) ++ filter q l) l.
Proof.
  intros Hps Hq. induction l as [|a l IH].
  - clear. simpl. rewrite app_nil_r.
    induction ps as [|p ps IHps]; [reflexivity | exact IHps].
  - rewrite (pieces_cons ps q a l Hps (Hq a)). now constructor.
Qed.

End Pieces.

Lemma disjointb_spec (c c' : list string) (n : string) :
  disjointb c c' = true ->
  Py.str_in n c = true -> Py.str_in n c' = false.
Proof.
  unfold disjointb. rewrite forallb_forall. intros H Hn.
  apply str_in_In in Hn. apply H in Hn. now apply negb_true_iff.
Qed.

Lemma pairwise_disjointb_exclusive (cs : list (list string)) :
  pairwise_disjointb cs = true ->
  exclusive
    (map (fun c (a : string * AppConfig) => has_charm_in c (snd a)) cs).
Proof.
  induction cs as [|c cs IH]; simpl; intros H; [constructor|].
  apply andb_true_iff in H as [Hc Hcs].
  constructor; [|now apply IH].
  apply Forall_forall. intros p Hp.
  apply in_map_iff in Hp as (c' & <- & Hc').
  rewrite forallb_forall in Hc. specialize (Hc c' Hc').
  intros [app cfg]. unfold has_charm_in. simpl.
  rewrite extract_charm_name_from_url_eq.
  now apply disjointb_spec.
Qed.

Lemma service_groups_disjoint :
  pairwise_disjointb (map snd SERVICE_GROUPS) = true.
Proof. vm_compute. reflexivity. Qed.

(** Every application is in one group: the names of the phase groups and
    of the sweep-up group, one after the other, are the names of the
    mapping up to order. *)
Lemma groups_perm (cs : list (list string))
  (applications : list (string * AppConfig)) :
  pairwise_disjointb cs = true ->
  Permutation
    (List.concat (map (fun c => apps_with_charm_in c applications) cs)
     ++ map fst
          (filter (fun a => negb (has_charm_in (List.concat cs) (snd a)))
             applications))
    (map fst applications).
Proof.
  intros Hcs.
  pose proof (pieces_perm
    (map (fun c (a : string * AppConfig) => has_charm_in c (snd a)) cs)
    (fun a => negb (has_charm_in (List.concat cs) (snd a)))
    applications (pairwise_disjointb_exclusive cs Hcs)) as H.
  rewrite map_map in H.
  apply (Permutation_map fst) in H.
  - rewrite map_app, concat_map, map_map in H. exact H.
  - intros [app cfg]. cbn [snd]. rewrite has_charm_in_concat.
    f_equal. clear. induction cs as [|c cs IH]; simpl; [reflexivity|].
    now rewrite IH.
Qed.

(** ** The filter chain *)

#[local] Open Scope list_scope.

Lemma include_app_true_iff (app : string) (app_config : AppConfig)
  (filters : list Filter) (model_name : option string) :
  _include_app app app_config filters model_name = Ok true <->
  Forall (fun filt => filt app app_config model_name = Ok false) filters.
Proof.
  induction filters as [|f fs IH]; simpl.
  - split; [constructor | reflexivity].
  - destruct (f app app_config model_name) as [[|]|e] eqn:E; simpl.
    + split; [discriminate|]. intros H. inversion H. congruence.
    + rewrite IH. split; [now constructor | now inversion 1].
    + split; [discriminate|]. intros H. inversion H. congruence.
Qed.

Lemma include_app_false_iff (app : string) (app_config : AppConfig)
  (filters : list Filter) (model_name : option string) :
  _include_app app app_config filters model_name = Ok false <->
  exists before filt after,
    filters = (before ++ filt :: after)%list
    /\ Forall (fun g => g app app_config model_name = Ok false) before
    /\ filt app app_config model_name = Ok true.
Proof.
  induction filters as [|f fs IH]; simpl.
  - split; [discriminate|].
    intros (before & filt & after & E & _). now destruct before.
  - destruct (f app app_config model_name) as [[|]|e] eqn:E; simpl.
    + split; [|reflexivity]. intros _. exists [], f, fs. auto.
    + rewrite IH. split.
      * intros (before & filt & after & -> & Hb & Hf).
        exists (f :: before), filt, after. auto.
      * intros (before & filt & after & Efs & Hb & Hf).
        destruct before as [|g before]; simpl in Efs.
        -- injection Efs as -> ->. congruence.
        -- injection Efs as -> ->. inversion Hb; subst.
           exists before, filt, after. auto.
    + split; [discriminate|].
      intros (before & filt & after & Efs & Hb & Hf).
      destruct before as [|g before]; simpl in Efs.
      * injection Efs as -> ->. congruence.
      * injection Efs as -> ->. inversion Hb; subst. congruence.
Qed.

Lemma survives_spec (filters : list Filter) (model_name : option string)
  (a : string * AppConfig) :
  survives filters model_name a = true <->
  _include_app (fst a) (snd a) filters model_name = Ok true.
Proof.
  unfold survives.
  destruct (_include_app _ _ _ _) as [[|]|e]; split; congruence.
Qed.

(** When no filter raises, the candidates are the entries of the status
    that [_include_app] accepts, in the order of the status. *)
Lemma candidates_loop_eq (items : list (string * AppConfig))
  (filters : list Filter) (model_name : option string) :
  (forall app cfg, In (app, cfg) items ->
     exists b, _include_app app cfg filters model_name = Ok b) ->
  candidates_loop items filters model_name
  = Ok (filter (survives filters model_name) items).
Proof.
  induction items as [|[app cfg] rest IH]; intros H; [reflexivity|].
  cbn [candidates_loop filter]. unfold survives at 1. cbn [fst snd].
  destruct (H app cfg (or_introl eq_refl)) as [b ->].
  rewrite IH by (intros; apply H; now right).
  now destruct b.
Qed.

Lemma NoDup_keys_filter {V : Type} (p : string * V -> bool)
  (d : list (string * V)) :
  NoDup (map fst d) -> NoDup (map fst (filter p d)).
Proof.
  induction d as [|[k v] d IH]; simpl; intros H; [constructor|].
  inversion H as [|? ? Hk Hd]; subst.
  destruct (p (k, v)); [|auto].
  simpl. constructor; [|auto].
  intros Hin. apply Hk. apply in_map_iff in Hin as (x & <- & Hx).
  apply filter_In in Hx as [Hx _]. now apply in_map.
Qed.

(** ** The groups of a mapping *)

(** What [_build_service_groups] returns on a mapping with distinct
    keys. *)
Lemma build_service_groups_groups
  (applications : list (string * AppConfig)) :
  NoDup (map fst applications) ->
  _build_service_groups applications
  = Ok (map (fun sg =>
               (fst sg,
                Py.list_sort (apps_with_charm_in (snd sg) applications)))
          SERVICE_GROUPS
        ++ [("sweep_up", Py.list_sort (apps_without_group applications))]).
Proof.
  intros Hnd. rewrite build_service_groups_eq.
  rewrite map_app, map_map. cbn [map fst snd].
  rewrite <- (map_map snd (fun c => apps_with_charm_in c applications)).
  rewrite (sweep_up_eq (map snd SERVICE_GROUPS) applications Hnd).
  reflexivity.
Qed.

Lemma groups_members_perm (applications : list (string * AppConfig)) :
  Permutation
    (List.concat
       (map snd
          (map (fun sg =>
                  (fst sg,
                   Py.list_sort (apps_with_charm_in (snd sg) applications)))
             SERVICE_GROUPS
           ++ [("sweep_up",
                Py.list_sort (apps_without_group applications))])))
    (map fst applications).
Proof.
  rewrite map_app, map_map, concat_app. cbn [map snd List.concat].
  rewrite app_nil_r.
  rewrite <- (groups_perm (map snd SERVICE_GROUPS) applications
                service_groups_disjoint).
  apply Permutation_app; [|apply list_sort_perm].
  rewrite map_map.
  rewrite <- (map_map (fun sg => apps_with_charm_in (snd sg) applications)
                Py.list_sort).
  apply concat_sort_perm.
Qed.

Lemma groups_members_sorted (applications : list (string * AppConfig)) :
  Forall (fun g : string * list string => Sorted str_le (snd g))
    (map (fun sg =>
            (fst sg,
             Py.list_sort (apps_with_charm_in (snd sg) applications)))
       SERVICE_GROUPS
     ++ [("sweep_up", Py.list_sort (apps_without_group applications))]).
Proof.
  apply Forall_app. split.
  - apply Forall_forall. intros g Hg.
    apply in_map_iff in Hg as (sg & <- & _). apply list_sort_Sorted.
  - repeat constructor. apply list_sort_Sorted.
Qed.

Lemma plan_groups_eq
  (get_status : option string -> list (string * AppConfig))
  (model_name : option string) (filters : list Filter) :
  (forall app cfg, In (app, cfg) (get_status model_name) ->
     exists b, _include_app app cfg filters model_name = Ok b) ->
  plan_groups get_status model_name filters
  = _build_service_groups
      (filter (survives filters model_name) (get_status model_name)).
Proof.
  intros H. unfold plan_groups, get_upgrade_candidates.
  now rewrite candidates_loop_eq.
Qed.

Lemma In_survivors (filters : list Filter) (model_name : option string)
  (items : list (string * AppConfig)) (app : string) :
  In app (map fst (filter (survives filters model_name) items)) <->
  exists cfg, In (app, cfg) items
              /\ _include_app app cfg filters model_name = Ok true.
Proof.
  rewrite in_map_iff. split.
  - intros ([a cfg] & E & H). simpl in E. subst a.
    apply filter_In in H as [H1 H2]. apply survives_spec in H2. eauto.
  - intros (cfg & H1 & H2). exists (app, cfg). split; [reflexivity|].
    apply filter_In. split; [exact H1 | now apply survives_spec].
Qed.

(** C1: when the status has distinct application names and no filter
    raises, the planner returns groups such that: an application is
    accepted exactly when every filter of the chain returns false for it,
    that is when no filter returns true for it, and rejected exactly when
    some filter returns true after all the filters before it returned
    false; the members of all groups together are exactly the accepted
    applications; no application is in two groups or twice in one; and
    every member list is sorted ascending. *)
Theorem plan_groups_partition
  (get_status : option string -> list (string * AppConfig))
  (model_name : option string) (filters : list Filter) :
  NoDup (map fst (get_status model_name)) ->
  (forall app cfg, In (app, cfg) (get_status model_name) ->
     exists b, _include_app app cfg filters model_name = Ok b) ->
  exists groups,
    plan_groups get_status model_name filters = Ok groups
    /\ (forall app cfg,
          _include_app app cfg filters model_name = Ok true <->
          Forall (fun filt => filt app cfg model_name = Ok false) filters)
    /\ (forall app cfg,
          _include_app app cfg filters model_name = Ok false <->
          exists before filt after,
            filters = before ++ filt :: after
            /\ Forall (fun g => g app cfg model_name = Ok false) before
            /\ filt app cfg model_name = Ok true)
    /\ (forall app cfg,
          In (app, cfg) (get_status model_name) ->
          (_include_app app cfg filters model_name = Ok true <->
           forall filt, In filt filters ->
                        filt app cfg model_name <> Ok true))
    /\ (forall app,
          In app (List.concat (map snd groups)) <->
          exists cfg, In (app, cfg) (get_status model_name)
                      /\ _include_app app cfg filters model_name = Ok true)
    /\ NoDup (List.concat (map snd groups))
    /\ Forall (fun g => Sorted str_le (snd g)) groups.
Proof.
  intros Hnd Hraise.
  set (apps := filter (survives filters model_name) (get_status model_name)).
  assert (Hkeys : NoDup (map fst apps)) by now apply NoDup_keys_filter.
  eexists. split.
  { rewrite (plan_groups_eq _ _ _ Hraise).
    apply (build_service_groups_groups apps Hkeys). }
  split; [intros; apply include_app_true_iff|].
  split; [intros; apply include_app_false_iff|].
  split.
  { intros app cfg Hin. split.
    - intros H filt Hf. apply include_app_true_iff in H.
      rewrite Forall_forall in H. rewrite (H filt Hf). discriminate.
    - intros H. destruct (Hraise app cfg Hin) as [[|] Hb]; [exact Hb|].
      apply include_app_false_iff in Hb
        as (before & filt & after & -> & _ & Hf).
      exfalso. apply (H filt); [|exact Hf].
      apply in_or_app. right. now left. }
  pose proof (groups_members_perm apps) as Hperm.
  split; [|split].
  - intros app. rewrite <- In_survivors. fold apps. split.
    + apply Permutation_in. exact Hperm.
    + apply Permutation_in. symmetry. exact Hperm.
  - apply (Permutation_NoDup (l := map fst apps)); [|exact Hkeys].
    symmetry. exact Hperm.
  - apply groups_members_sorted.
Qed.

Lemma example_status_keys : NoDup (map fst example_status).
Proof.
  repeat constructor; simpl; intuition discriminate.
Qed.

Lemma example_filters_return (app : string) (cfg : AppConfig) :
  In (app, cfg) example_status ->
  exists b, _include_app app cfg example_filters None = Ok b.
Proof.
  simpl. intros [E|[E|[E|[E|[]]]]]; injection E as <- <-;
    eexists; vm_compute; reflexivity.
Qed.

Lemma plan_groups_partition_witness :
  NoDup (map fst example_status)
  /\ (forall app cfg, In (app, cfg) example_status ->
        exists b, _include_app app cfg example_filters None = Ok b)
  /\ exists groups,
       plan_groups (fun _ => example_status) None example_filters = Ok groups
       /\ NoDup (List.concat (map snd groups))
       /\ Forall (fun g => Sorted str_le (snd g)) groups.
Proof.
  split; [exact example_status_keys|].
  split; [exact example_filters_return|].
  destruct (plan_groups_partition (fun _ => example_status) None
              example_filters example_status_keys example_filters_return)
    as (groups & Hplan & _ & _ & _ & _ & Hnd & Hsorted).
  exists groups. auto.
Defined.

(** ** The phases *)

Lemma In_apps_without_group (applications : list (string * AppConfig))
  (app : string) :
  In app (apps_without_group applications) <->
  exists cfg charm_name,
    In (app, cfg) applications
    /\ extract_charm_name_from_url (Some (charm cfg)) = Ok charm_name
    /\ forall phase charms,
         In (phase, charms) SERVICE_GROUPS -> ~ In charm_name charms.
Proof.
  unfold apps_without_group. rewrite in_map_iff.
  assert (Hnone : forall cfg,
            negb (has_charm_in (List.concat (map snd SERVICE_GROUPS)) cfg)
            = true <->
            forall phase charms,
              In (phase, charms) SERVICE_GROUPS ->
              ~ In (after_last ":"
                      (Py.re_sub_revision (after_last "/" (charm cfg))))
                  charms).
  { intros cfg. rewrite negb_true_iff, <- not_true_iff_false.
    unfold has_charm_in. rewrite extract_charm_name_from_url_eq.
    rewrite str_in_In, in_concat. split.
    - intros H phase charms Hsg Hin. apply H. exists charms. split; [|auto].
      now apply (in_map snd) in Hsg.
    - intros H (charms & Hc & Hin).
      apply in_map_iff in Hc as ([phase c] & E & Hsg). simpl in E. subst c.
      exact (H phase charms Hsg Hin). }
  split.
  - intros ([a cfg] & E & H). simpl in E. subst a.
    apply filter_In in H as [H1 H2]. cbn [snd] in H2.
    exists cfg. eexists. split; [exact H1|].
    split; [apply extract_charm_name_from_url_eq|]. now apply Hnone.
  - intros (cfg & n & H1 & E & H2).
    rewrite extract_charm_name_from_url_eq in E. injection E as <-.
    exists (app, cfg). split; [reflexivity|].
    apply filter_In. split; [exact H1|]. cbn [snd]. now apply Hnone.
Qed.

Lemma In_list_sort (x : string) (l : list string) :
  In x (Py.list_sort l) <-> In x l.
Proof.
  split; apply Permutation_in;
    [apply list_sort_perm | symmetry; apply list_sort_perm].
Qed.

(** C6: on a mapping with distinct names (the applications that
    [get_upgrade_candidates] kept), [_build_service_groups] returns the
    six groups Database Services, Stateful Services, Core Identity,
    Control Plane, Data Plane and sweep_up, in this order and whatever
    their members; the group of a phase holds exactly the applications
    whose extracted charm name is in the charm list of the phase, and the
    sweep_up group exactly those whose charm name is in no charm list. *)
Theorem build_service_groups_phases
  (applications : list (string * AppConfig)) :
  NoDup (map fst applications) ->
  exists groups,
    _build_service_groups applications = Ok groups
    /\ map fst groups
       = [ "Database Services"; "Stateful Services"; "Core Identity";
           "Control Plane"; "Data Plane"; "sweep_up" ]
    /\ groups
       = map (fun sg =>
                (fst sg,
                 Py.list_sort (apps_with_charm_in (snd sg) applications)))
           SERVICE_GROUPS
         ++ [("sweep_up", Py.list_sort (apps_without_group applications))]
    /\ (forall phase charms,
          In (phase, charms) SERVICE_GROUPS ->
          exists members,
            In (phase, members) groups
            /\ forall app,
                 In app members <->
                 exists cfg charm_name,
                   In (app, cfg) applications
                   /\ extract_charm_name_from_url (Some (charm cfg))
                      = Ok charm_name
                   /\ In charm_name charms)
    /\ (forall members,
          In ("sweep_up", members) groups ->
          forall app,
            In app members <->
            exists cfg charm_name,
              In (app, cfg) applications
              /\ extract_charm_name_from_url (Some (charm cfg))
                 = Ok charm_name
              /\ forall phase charms,
                   In (phase, charms) SERVICE_GROUPS ->
                   ~ In charm_name charms).
Proof.
  intros Hnd. eexists.
  split; [apply (build_service_groups_groups applications Hnd)|].
  split; [reflexivity|]. split; [reflexivity|]. split.
  - intros phase charms Hsg.
    exists (Py.list_sort (apps_with_charm_in charms applications)). split.
    + apply in_or_app. left.
      apply in_map_iff. exists (phase, charms). auto.
    + intros app. rewrite In_list_sort, In_apps_with_charm_in. split.
      * intros (cfg & Hin & Hc).
        apply has_charm_in_spec in Hc as (n & E & Hn). eauto.
      * intros (cfg & n & Hin & E & Hn). exists cfg. split; [exact Hin|].
        apply has_charm_in_spec. eauto.
  - intros members Hm app.
    apply in_app_or in Hm as [Hm|[Hm|[]]].
    + exfalso. simpl in Hm.
      repeat (destruct Hm as [Hm|Hm]; [discriminate|]). exact Hm.
    + injection Hm as <-.
      rewrite In_list_sort. apply In_apps_without_group.
Qed.

Lemma build_service_groups_phases_witness :
  NoDup (map fst example_status)
  /\ exists groups,
       _build_service_groups example_status = Ok groups
       /\ map fst groups
          = [ "Database Services"; "Stateful Services"; "Core Identity";
              "Control Plane"; "Data Plane"; "sweep_up" ].
Proof.
  split; [exact example_status_keys|].
  destruct (build_service_groups_phases example_status example_status_keys)
    as (groups & Hbuild & Hnames & _).
  exists groups. auto.
Defined.

(** ** The default filters *)

Lemma filter_subordinates_eq (app : string) (cfg : AppConfig)
  (model_name : option string) :
  (_filter_subordinates app cfg model_name = Ok true
   <-> subordinate_to cfg <> [])
  /\ (_filter_subordinates app cfg model_name = Ok false
      <-> subordinate_to cfg = []).
Proof.
  unfold _filter_subordinates.
  destruct (subordinate_to cfg); split; split; congruence.
Qed.

Lemma filter_openstack_upgrade_list_eq (app : string) (cfg : AppConfig)
  (model_name : option string) :
  _filter_openstack_upgrade_list app cfg model_name
  = Ok (Py.str_in app UPGRADE_EXCLUDE_LIST
        || Py.str_in
             (after_last ":" (Py.re_sub_revision (after_last "/" (charm cfg))))
             UPGRADE_EXCLUDE_LIST).
Proof.
  unfold _filter_openstack_upgrade_list.
  rewrite extract_charm_name_from_url_eq. cbn [bind].
  now destruct (_ || _).
Qed.

Lemma filter_openstack_upgrade_list_iff (app : string) (cfg : AppConfig)
  (model_name : option string) (charm_name : string) :
  extract_charm_name_from_url (Some (charm cfg)) = Ok charm_name ->
  (_filter_openstack_upgrade_list app cfg model_name = Ok true
   <-> In app UPGRADE_EXCLUDE_LIST \/ In charm_name UPGRADE_EXCLUDE_LIST)
  /\ (_filter_openstack_upgrade_list app cfg model_name = Ok false
      <-> ~ In app UPGRADE_EXCLUDE_LIST
          /\ ~ In charm_name UPGRADE_EXCLUDE_LIST).
Proof.
  rewrite extract_charm_name_from_url_eq. intros E. injection E as <-.
  rewrite filter_openstack_upgrade_list_eq.
  rewrite <- !str_in_In.
  destruct (Py.str_in app _), (Py.str_in _ UPGRADE_EXCLUDE_LIST);
    simpl; intuition congruence.
Qed.

Lemma filter_non_openstack_services_iff
  (get_application_config : string -> option string -> list (string * string))
  (app : string) (cfg : AppConfig) (model_name : option string) :
  let options := map fst (get_application_config app model_name) in
  (_filter_non_openstack_services get_application_config app cfg model_name
   = Ok true
   <-> ~ In "openstack-origin" options /\ ~ In "source" options)
  /\ (_filter_non_openstack_services get_application_config app cfg
        model_name = Ok false
      <-> In "openstack-origin" options \/ In "source" options).
Proof.
  intros options. unfold _filter_non_openstack_services. fold options.
  cbn [filter]. rewrite <- !str_in_In.
  destruct (Py.str_in "openstack-origin" options),
    (Py.str_in "source" options); intuition congruence.
Qed.

(** C10: the exclude-list filter never raises, and it excludes an
    application exactly when the name of the application or its extracted
    charm name is on the list [rabbitmq-server], [percona-cluster]: an
    application [mq] of charm [rabbitmq-server] is excluded, and so is an
    application [percona-cluster] of another charm. *)
Theorem filter_openstack_upgrade_list_either_name :
  UPGRADE_EXCLUDE_LIST = ["rabbitmq-server"; "percona-cluster"]
  /\ (forall (app : string) (cfg : AppConfig) (model_name : option string),
        exists charm_name,
          extract_charm_name_from_url (Some (charm cfg)) = Ok charm_name
          /\ (_filter_openstack_upgrade_list app cfg model_name = Ok true
              <-> In app UPGRADE_EXCLUDE_LIST
                  \/ In charm_name UPGRADE_EXCLUDE_LIST)
          /\ (_filter_openstack_upgrade_list app cfg model_name = Ok false
              <-> ~ In app UPGRADE_EXCLUDE_LIST
                  /\ ~ In charm_name UPGRADE_EXCLUDE_LIST))
  /\ _filter_openstack_upgrade_list "mq"
       {| charm := "cs:rabbitmq-server-97"; subordinate_to := [] |} None
     = Ok true
  /\ _filter_openstack_upgrade_list "percona-cluster"
       {| charm := "local:focal/mysql-7"; subordinate_to := [] |} None
     = Ok true
  /\ _filter_openstack_upgrade_list "keystone"
       {| charm := "cs:keystone-3"; subordinate_to := [] |} None
     = Ok false.
Proof.
  split; [reflexivity|].
  split; [|repeat split; reflexivity].
  intros app cfg model_name. eexists.
  split; [apply extract_charm_name_from_url_eq|].
  apply filter_openstack_upgrade_list_iff.
  apply extract_charm_name_from_url_eq.
Qed.

(** ** The entry points *)

Section EntryPoints.

Variable get_status : option string -> list (string * AppConfig).
Variable get_application_config :
  string -> option string -> list (string * string).
Variable model_name : option string.

Lemma include_app_full_chain (app : string) (cfg : AppConfig) :
  _include_app app cfg
    [ _filter_subordinates;
      _filter_openstack_upgrade_list;
      _filter_non_openstack_services get_application_config ]
    model_name
  = Ok (match subordinate_to cfg with [] => true | _ :: _ => false end
        && negb (Py.str_in app UPGRADE_EXCLUDE_LIST
                 || Py.str_in
                      (after_last ":"
                         (Py.re_sub_revision (after_last "/" (charm cfg))))
                      UPGRADE_EXCLUDE_LIST)
        && (Py.str_in "openstack-origin"
              (map fst (get_application_config app model_name))
            || Py.str_in "source"
                 (map fst (get_application_config app model_name)))).
Proof.
  cbn [_include_app].
  rewrite filter_openstack_upgrade_list_eq.
  unfold _filter_subordinates, _filter_non_openstack_services.
  cbn [filter].
  destruct (subordinate_to cfg); [|reflexivity]. cbn [bind andb].
  destruct (_ || _); [reflexivity|]. cbn [negb andb].
  destruct (Py.str_in "openstack-origin" _), (Py.str_in "source" _);
    reflexivity.
Qed.

(** C8: without extra filters, full-upgrade planning runs the chain
    subordinates, exclude list, missing source option, in this order;
    series-upgrade planning runs the subordinates filter alone; and
    charm-upgrade planning runs no filter.  The three filters exclude,
    respectively, an application with a non-empty subordinate-to list, an
    application whose name or charm name is [rabbitmq-server] or
    [percona-cluster], and an application whose configuration has neither
    the option [openstack-origin] nor the option [source]; so an
    application passes the full chain exactly when none of the three
    holds, the series chain exactly when it is no subordinate, and the
    charm chain always. *)
Theorem default_filter_chains :
  get_upgrade_groups get_status get_application_config model_name ExtraNone
  = plan_groups get_status model_name
      [ _filter_subordinates;
        _filter_openstack_upgrade_list;
        _filter_non_openstack_services get_application_config ]
  /\ get_series_upgrade_groups get_status model_name ExtraNone
     = plan_groups get_status model_name [ _filter_subordinates ]
  /\ get_charm_upgrade_groups get_status model_name ExtraNone
     = plan_groups get_status model_name []
  /\ UPGRADE_EXCLUDE_LIST = ["rabbitmq-server"; "percona-cluster"]
  /\ (forall app cfg,
        _filter_subordinates app cfg model_name = Ok true
        <-> subordinate_to cfg <> [])
  /\ (forall app cfg charm_name,
        extract_charm_name_from_url (Some (charm cfg)) = Ok charm_name ->
        (_filter_openstack_upgrade_list app cfg model_name = Ok true
         <-> In app UPGRADE_EXCLUDE_LIST
             \/ In charm_name UPGRADE_EXCLUDE_LIST))
  /\ (forall app cfg,
        _filter_non_openstack_services get_application_config app cfg
          model_name = Ok true
        <-> ~ In "openstack-origin"
                (map fst (get_application_config app model_name))
            /\ ~ In "source"
                   (map fst (get_application_config app model_name)))
  /\ (forall app cfg,
        exists charm_name,
          extract_charm_name_from_url (Some (charm cfg)) = Ok charm_name
          /\ (_include_app app cfg
                [ _filter_subordinates;
                  _filter_openstack_upgrade_list;
                  _filter_non_openstack_services get_application_config ]
                model_name = Ok true
              <-> subordinate_to cfg = []
                  /\ ~ In app UPGRADE_EXCLUDE_LIST
                  /\ ~ In charm_name UPGRADE_EXCLUDE_LIST
                  /\ (In "openstack-origin"
                        (map fst (get_application_config app model_name))
                      \/ In "source"
                           (map fst
                              (get_application_config app model_name)))))
  /\ (forall app cfg,
        _include_app app cfg [ _filter_subordinates ] model_name = Ok true
        <-> subordinate_to cfg = [])
  /\ (forall app cfg, _include_app app cfg [] model_name = Ok true).
Proof.
  split; [reflexivity|]. split; [reflexivity|]. split; [reflexivity|].
  split; [reflexivity|].
  split; [intros; apply filter_subordinates_eq|].
  split; [intros app cfg n E;
          now apply (filter_openstack_upgrade_list_iff app cfg model_name n)|].
  split; [intros app cfg;
          apply (filter_non_openstack_services_iff
                   get_application_config app cfg model_name)|].
  split; [|split; [|reflexivity]].
  - intros app cfg. eexists.
    split; [apply extract_charm_name_from_url_eq|].
    rewrite include_app_full_chain, <- !str_in_In.
    destruct (subordinate_to cfg), (Py.str_in app _),
      (Py.str_in _ UPGRADE_EXCLUDE_LIST),
      (Py.str_in "openstack-origin" _), (Py.str_in "source" _);
      simpl; intuition congruence.
  - intros app cfg. cbn [_include_app]. unfold _filter_subordinates.
    destruct (subordinate_to cfg); simpl; split; congruence.
Qed.


End EntryPoints.


(** ** Loops that may raise *)

Lemma for_each_Ok {A : Type} (l : list A) (body : A -> result unit) :
  Py.for_each l body = Ok tt <-> Forall (fun x => body x = Ok tt) l.
Proof.
  induction l as [|x l IH]; simpl.
  - split; [constructor | reflexivity].
  - destruct (body x) as [[]|e] eqn:E; simpl.
    + rewrite IH. split; [now constructor | now inversion 1].
    + split; [discriminate|]. inversion 1. congruence.
Qed.

(** A loop that does not complete raises the exception of the first
    item whose body raises. *)
Lemma for_each_Raise {A : Type} (l : list A) (body : A -> result unit) :
  ~ Forall (fun x => body x = Ok tt) l ->
  exists before x after e,
    l = before ++ x :: after
    /\ Forall (fun y => body y = Ok tt) before
    /\ body x = Raise e
    /\ Py.for_each l body = Raise e.
Proof.
  induction l as [|x l IH]; intros H.
  - exfalso. apply H. constructor.
  - simpl. destruct (body x) as [[]|e] eqn:E; simpl.
    + destruct IH as (before & y & after & e & -> & Hb & Hy & Hl).
      { intros Hl. apply H. now constructor. }
      exists (x :: before), y, after, e. repeat split; auto.
    + exists [], x, l, e. repeat split; auto.
Qed.

Lemma dict_has_get {V : Type} (k : string) (d : list (string * V)) :
  Py.dict_has k d = true <-> exists v, Py.dict_get k d = Ok v.
Proof.
  induction d as [|[k' v'] d IH]; simpl.
  - split; [discriminate | intros [v H]; discriminate].
  - destruct (k' =? k)%string; simpl; [|exact IH].
    split; eauto.
Qed.

(** ** The validator *)

Section Validator.

Variable actual : ActualProcessMap.

Lemma body_present_Ok e :
  check_unit_present actual e = Ok tt <-> unit_present actual e.
Proof.
  unfold check_unit_present, unit_present.
  destruct (Py.dict_has (fst e) actual); split; congruence.
Qed.

Lemma body_present_Raise e x :
  (check_unit_present actual) e = Raise x ->
  x = UnitNotFound (fst e) /\ Py.dict_has (fst e) actual = false.
Proof.
  unfold check_unit_present.
  destruct (Py.dict_has (fst e) actual); [discriminate|].
  intros H. injection H as <-. auto.
Qed.

Lemma body_name_count_Ok e :
  (check_name_count actual) e = Ok tt <-> name_count_ok actual e.
Proof.
  unfold check_name_count, name_count_ok.
  destruct (Py.dict_get (fst e) actual) as [a_procs|x]; simpl.
  - destruct (Nat.eqb_spec (List.length (snd e)) (List.length a_procs)).
    + split; eauto.
    + split; [discriminate|]. intros (a' & E & H). congruence.
  - split; [discriminate|]. intros (a' & E & _). discriminate.
Qed.

Lemma body_name_count_Raise e x :
  unit_present actual e -> (check_name_count actual) e = Raise x ->
  x = ProcessNameCountMismatch.
Proof.
  unfold unit_present, check_name_count. intros Hp.
  apply dict_has_get in Hp as [a_procs ->]. simpl.
  destruct (_ =? _)%nat; congruence.
Qed.

Lemma body_names_Ok e : (check_names actual) e = Ok tt <-> names_present actual e.
Proof.
  unfold check_names, names_present.
  destruct (Py.dict_get (fst e) actual) as [a_procs|x]; simpl.
  - rewrite for_each_Ok. split.
    + intros H. exists a_procs. split; [reflexivity|].
      eapply Forall_impl; [|exact H]. intros p. simpl.
      destruct (Py.dict_has (fst p) a_procs); congruence.
    + intros (a' & E & H). injection E as <-.
      eapply Forall_impl; [|exact H]. intros p. simpl. now intros ->.
  - split; [discriminate|]. intros (a' & E & _). discriminate.
Qed.

Lemma body_names_Raise e x :
  unit_present actual e -> (check_names actual) e = Raise x ->
  exists a_procs p,
    Py.dict_get (fst e) actual = Ok a_procs
    /\ In p (map fst (snd e))
    /\ Py.dict_has p a_procs = false
    /\ x = ProcessNameMismatch p.
Proof.
  unfold unit_present, check_names. intros Hp.
  apply dict_has_get in Hp as [a_procs ->]. simpl. intros H.
  destruct (for_each_Raise (snd e)
              (fun p => if Py.dict_has (fst p) a_procs then Ok tt
                        else Raise (ProcessNameMismatch (fst p))))
    as (before & p & after & y & E & _ & Hbody & Hloop).
  { rewrite <- for_each_Ok. congruence. }
  exists a_procs, (fst p). split; [reflexivity|].
  rewrite E, map_app, in_app_iff. cbn [map In].
  destruct (Py.dict_has (fst p) a_procs); [discriminate|].
  repeat split; auto. congruence.
Qed.

Lemma body_pids_Ok e :
  check_pids actual e = Ok tt <-> pid_counts_ok actual e.
Proof.
  unfold check_pids, pid_counts_ok.
  destruct (Py.dict_get (fst e) actual) as [a_procs|x]; simpl.
  - rewrite for_each_Ok. split.
    + intros H. exists a_procs. split; [reflexivity|].
      eapply Forall_impl; [|exact H]. intros p. simpl.
      destruct (Py.dict_get (fst p) a_procs) as [a_pids|y]; simpl;
        [|discriminate].
      destruct (pid_count_ok _ _) eqn:Hc; [eauto | discriminate].
    + intros (a' & E & H). injection E as <-.
      eapply Forall_impl; [|exact H]. intros p. simpl.
      intros (a_pids & -> & Hc). simpl. now rewrite Hc.
  - split; [discriminate|]. intros (a' & E & _). discriminate.
Qed.

Lemma body_pids_Raise e x :
  names_present actual e -> (check_pids actual) e = Raise x ->
  exists a_procs p a_pids,
    Py.dict_get (fst e) actual = Ok a_procs
    /\ In p (snd e)
    /\ Py.dict_get (fst p) a_procs = Ok a_pids
    /\ pid_count_ok (snd p) (List.length a_pids) = false
    /\ x = PIDCountMismatch (fst e) (fst p) (snd p) (List.length a_pids).
Proof.
  unfold names_present, check_pids. intros (a_procs & -> & Hnames). simpl.
  intros H.
  destruct (for_each_Raise (snd e)
              (fun p =>
                 a_pids <- Py.dict_get (fst p) a_procs ;;
                 if pid_count_ok (snd p) (List.length a_pids) then Ok tt
                 else Raise (PIDCountMismatch (fst e) (fst p) (snd p)
                               (List.length a_pids))))
    as (before & p & after & y & E & _ & Hbody & Hloop).
  { rewrite <- for_each_Ok. congruence. }
  assert (Hin : In p (snd e)).
  { rewrite E. apply in_or_app. right. now left. }
  rewrite Forall_forall in Hnames. specialize (Hnames p Hin).
  apply dict_has_get in Hnames as [a_pids Hget].
  exists a_procs, p, a_pids. rewrite Hget in Hbody. simpl in Hbody.
  destruct (pid_count_ok _ _); [discriminate|].
  repeat split; auto. congruence.
Qed.

End Validator.

Lemma pass_Ok {A : Type} (body : A -> result unit) (P : A -> Prop)
  (l : list A) :
  (forall x, body x = Ok tt <-> P x) ->
  Forall P l -> Py.for_each l body = Ok tt.
Proof.
  intros HP H. apply for_each_Ok.
  eapply Forall_impl; [|exact H]. intros x. apply HP.
Qed.

Lemma pass_Raise {A : Type} (body : A -> result unit) (P : A -> Prop)
  (l : list A) :
  (forall x, body x = Ok tt <-> P x) ->
  ~ Forall P l ->
  exists before x after e,
    l = before ++ x :: after
    /\ Forall P before
    /\ body x = Raise e
    /\ Py.for_each l body = Raise e.
Proof.
  intros HP H.
  destruct (for_each_Raise l body)
    as (before & x & after & e & E & Hb & Hx & Hl).
  { intros Hall. apply H. eapply Forall_impl; [|exact Hall].
    intros y. apply HP. }
  exists before, x, after, e. repeat split; auto.
  eapply Forall_impl; [|exact Hb]. intros y. apply HP.
Qed.

(** C2: the validator raises [UnitCountMismatch] when the two mappings
    differ in size; otherwise [UnitNotFound], naming the first expected
    unit that the actual mapping lacks, when one is missing; otherwise
    [ProcessNameCountMismatch] when a unit differs in its number of
    process names; otherwise [ProcessNameMismatch], naming an expected
    process name that the unit lacks; otherwise [PIDCountMismatch],
    reporting unit, process, expected value and actual number, when the
    number of PIDs of a process does not match.  It returns true exactly
    when the five checks pass for all units and processes, and it returns
    nothing else. *)
Theorem validate_unit_process_ids_order
  (expected : ExpectedProcessMap) (actual : ActualProcessMap) :
  (List.length expected <> List.length actual ->
   validate_unit_process_ids expected actual = Raise UnitCountMismatch)
  /\ (List.length expected = List.length actual ->
      ~ Forall (unit_present actual) expected ->
      exists before e after,
        expected = before ++ e :: after
        /\ Forall (unit_present actual) before
        /\ Py.dict_has (fst e) actual = false
        /\ validate_unit_process_ids expected actual
           = Raise (UnitNotFound (fst e)))
  /\ (List.length expected = List.length actual ->
      Forall (unit_present actual) expected ->
      ~ Forall (name_count_ok actual) expected ->
      validate_unit_process_ids expected actual
      = Raise ProcessNameCountMismatch)
  /\ (List.length expected = List.length actual ->
      Forall (unit_present actual) expected ->
      Forall (name_count_ok actual) expected ->
      ~ Forall (names_present actual) expected ->
      exists unit_name procs a_procs proc_name,
        In (unit_name, procs) expected
        /\ Py.dict_get unit_name actual = Ok a_procs
        /\ In proc_name (map fst procs)
        /\ Py.dict_has proc_name a_procs = false
        /\ validate_unit_process_ids expected actual
           = Raise (ProcessNameMismatch proc_name))
  /\ (List.length expected = List.length actual ->
      Forall (unit_present actual) expected ->
      Forall (name_count_ok actual) expected ->
      Forall (names_present actual) expected ->
      ~ Forall (pid_counts_ok actual) expected ->
      exists unit_name procs a_procs proc_name count a_pids,
        In (unit_name, procs) expected
        /\ Py.dict_get unit_name actual = Ok a_procs
        /\ In (proc_name, count) procs
        /\ Py.dict_get proc_name a_procs = Ok a_pids
        /\ pid_count_ok count (List.length a_pids) = false
        /\ validate_unit_process_ids expected actual
           = Raise (PIDCountMismatch unit_name proc_name count
                      (List.length a_pids)))
  /\ (validate_unit_process_ids expected actual = Ok true <->
      List.length expected = List.length actual
      /\ Forall (unit_present actual) expected
      /\ Forall (name_count_ok actual) expected
      /\ Forall (names_present actual) expected
      /\ Forall (pid_counts_ok actual) expected)
  /\ validate_unit_process_ids expected actual <> Ok false.
Proof.
  unfold validate_unit_process_ids.
  destruct (Nat.eqb_spec (List.length expected) (List.length actual))
    as [Hlen|Hlen]; cbn [negb].
  2: { repeat split; try congruence; try discriminate.
       intros (H & _). contradiction. }
  pose proof (pass_Ok _ _ expected (body_present_Ok actual)) as P2.
  pose proof (pass_Ok _ _ expected (body_name_count_Ok actual)) as P3.
  pose proof (pass_Ok _ _ expected (body_names_Ok actual)) as P4.
  pose proof (pass_Ok _ _ expected (body_pids_Ok actual)) as P5.
  split; [congruence|]. split; [|split; [|split; [|split; [|split]]]].
  - intros _ H2.
    destruct (pass_Raise _ _ expected (body_present_Ok actual) H2)
      as (before & e & after & x & E & Hb & Hx & Hl).
    apply body_present_Raise in Hx as [-> Hx].
    exists before, e, after. rewrite Hl. auto.
  - intros _ H2 H3. rewrite (P2 H2). cbn [bind].
    destruct (pass_Raise _ _ expected (body_name_count_Ok actual) H3)
      as (before & e & after & x & E & Hb & Hx & Hl).
    rewrite Hl. cbn [bind]. f_equal.
    apply (body_name_count_Raise actual e); [|exact Hx].
    rewrite Forall_forall in H2. apply H2. rewrite E.
    apply in_or_app. right. now left.
  - intros _ H2 H3 H4. rewrite (P2 H2), (P3 H3). cbn [bind].
    destruct (pass_Raise _ _ expected (body_names_Ok actual) H4)
      as (before & e & after & x & E & Hb & Hx & Hl).
    assert (Hin : In e expected).
    { rewrite E. apply in_or_app. right. now left. }
    apply body_names_Raise in Hx as (a_procs & p & Hg & Hp & Hhas & ->).
    2: { rewrite Forall_forall in H2. now apply H2. }
    exists (fst e), (snd e), a_procs, p. rewrite Hl.
    rewrite <- surjective_pairing. auto.
  - intros _ H2 H3 H4 H5. rewrite (P2 H2), (P3 H3), (P4 H4). cbn [bind].
    destruct (pass_Raise _ _ expected (body_pids_Ok actual) H5)
      as (before & e & after & x & E & Hb & Hx & Hl).
    assert (Hin : In e expected).
    { rewrite E. apply in_or_app. right. now left. }
    apply body_pids_Raise in Hx
      as (a_procs & p & a_pids & Hg & Hp & Hgp & Hc & ->).
    2: { rewrite Forall_forall in H4. now apply H4. }
    exists (fst e), (snd e), a_procs, (fst p), (snd p), a_pids. rewrite Hl.
    rewrite <- !surjective_pairing. repeat split; auto.
  - split.
    + intros H.
      apply bind_Ok_inv in H as ([] & H2 & H).
      apply bind_Ok_inv in H as ([] & H3 & H).
      apply bind_Ok_inv in H as ([] & H4 & H).
      apply bind_Ok_inv in H as ([] & H5 & _).
      split; [exact Hlen|].
      rewrite for_each_Ok in H2, H3, H4, H5.
      repeat split.
      * eapply Forall_impl; [|exact H2]. intros e. apply body_present_Ok.
      * eapply Forall_impl; [|exact H3]. intros e. apply body_name_count_Ok.
      * eapply Forall_impl; [|exact H4]. intros e. apply body_names_Ok.
      * eapply Forall_impl; [|exact H5]. intros e. apply body_pids_Ok.
    + intros (_ & H2 & H3 & H4 & H5).
      now rewrite (P2 H2), (P3 H3), (P4 H4), (P5 H5).
  - destruct (Py.for_each expected (check_unit_present actual)) as [[]|];
      [|discriminate]; cbn [bind].
    destruct (Py.for_each expected (check_name_count actual)) as [[]|];
      [|discriminate]; cbn [bind].
    destruct (Py.for_each expected (check_names actual)) as [[]|];
      [|discriminate]; cbn [bind].
    destruct (Py.for_each expected (check_pids actual)) as [[]|];
      discriminate.
Qed.

(** The unit test [test_validate_unit_process_ids], case by case. *)
Example test_unit_count_mismatch :
  validate_unit_process_ids test_expected [] = Raise UnitCountMismatch.
Proof. reflexivity. Qed.

Example test_unit_not_found :
  validate_unit_process_ids test_expected
    (test_actual ("unit/1", [("pr1", ["1"; "2"]); ("pr2", ["1"; "2"])]))
  = Raise (UnitNotFound "unit/0").
Proof. reflexivity. Qed.

Example test_process_name_count_mismatch :
  validate_unit_process_ids test_expected
    (test_actual ("unit/0", [("pr1", ["1"; "2"])]))
  = Raise ProcessNameCountMismatch.
Proof. reflexivity. Qed.

Example test_process_name_mismatch :
  validate_unit_process_ids test_expected
    (test_actual ("unit/0", [("bad_name", ["1"; "2"]); ("pr2", ["1"; "2"])]))
  = Raise (ProcessNameMismatch "pr1").
Proof. reflexivity. Qed.

Example test_pid_count_mismatch_int :
  validate_unit_process_ids test_expected
    (test_actual ("unit/0", [("pr1", ["2"]); ("pr2", ["1"; "2"])]))
  = Raise (PIDCountMismatch "unit/0" "pr1" (ExactCount 2) 1).
Proof. reflexivity. Qed.

Example test_pid_count_mismatch_list :
  validate_unit_process_ids test_expected
    (test_actual ("unit/0", [("pr1", ["1"; "2"]); ("pr2", ["1"; "2"; "3"])]))
  = Raise (PIDCountMismatch "unit/0" "pr2" (OneOf [1%Z; 2%Z]) 3).
Proof. reflexivity. Qed.

Example test_valid :
  validate_unit_process_ids test_expected
    (test_actual ("unit/0", [("pr1", ["1"; "2"]); ("pr2", ["1"; "2"])]))
  = Ok true.
Proof. reflexivity. Qed.

Lemma pid_count_ok_exact (n : nat) (k : Z) :
  pid_count_ok (ExactCount k) n = true <-> Z.of_nat n = k.
Proof. simpl. apply Z.eqb_eq. Qed.

Lemma pid_count_ok_one_of (n : nat) (ks : list Z) :
  pid_count_ok (OneOf ks) n = true <-> In (Z.of_nat n) ks.
Proof.
  simpl. rewrite existsb_exists. split.
  - intros (k & Hk & E). apply Z.eqb_eq in E. now subst.
  - intros H. exists (Z.of_nat n). split; [exact H | apply Z.eqb_refl].
Qed.

(** C3: the PID-count check accepts an integer exactly when the number of
    PIDs equals it, and a sequence exactly when the number of PIDs is one
    of its members; for one unit with one process the validator returns
    true when the check accepts and raises [PIDCountMismatch] otherwise;
    the expected value [[1, 2]] accepts one or two PIDs and rejects three. *)
Theorem pid_count_check :
  (forall (n : nat) (k : Z),
      pid_count_ok (ExactCount k) n = true <-> Z.of_nat n = k)
  /\ (forall (n : nat) (ks : list Z),
        pid_count_ok (OneOf ks) n = true <-> In (Z.of_nat n) ks)
  /\ (forall (u p : string) (count : ExpectedCount) (pids : list string),
        validate_unit_process_ids [(u, [(p, count)])] [(u, [(p, pids)])]
        = if pid_count_ok count (List.length pids) then Ok true
          else Raise (PIDCountMismatch u p count (List.length pids)))
  /\ validate_unit_process_ids
       [("u1", [("p", OneOf [1%Z; 2%Z])])] [("u1", [("p", ["1"])])]
     = Ok true
  /\ validate_unit_process_ids
       [("u1", [("p", OneOf [1%Z; 2%Z])])] [("u1", [("p", ["1"; "2"])])]
     = Ok true
  /\ validate_unit_process_ids
       [("u1", [("p", OneOf [1%Z; 2%Z])])]
       [("u1", [("p", ["1"; "2"; "3"])])]
     = Raise (PIDCountMismatch "u1" "p" (OneOf [1%Z; 2%Z]) 3)
  /\ validate_unit_process_ids
       [("u1", [("p", ExactCount 2)])] [("u1", [("p", ["1"; "2"])])]
     = Ok true
  /\ validate_unit_process_ids
       [("u1", [("p", ExactCount 2)])] [("u1", [("p", ["1"])])]
     = Raise (PIDCountMismatch "u1" "p" (ExactCount 2) 1).
Proof.
  split; [exact pid_count_ok_exact|].
  split; [exact pid_count_ok_one_of|].
  split; [|repeat split; reflexivity].
  intros u p count pids.
  unfold validate_unit_process_ids, check_unit_present, check_name_count,
    check_names, check_pids.
  cbn [List.length Nat.eqb negb Py.for_each Py.dict_has Py.dict_get
         fst snd bind].
  rewrite !String.eqb_refl.
  cbn [orb bind List.length Nat.eqb Py.for_each fst snd].
  rewrite ?String.eqb_refl.
  cbn [orb bind Py.dict_has Py.dict_get fst snd].
  rewrite !String.eqb_refl. cbn [orb bind].
  now destruct (pid_count_ok count (List.length pids)).
Qed.

(** ** Process-id discovery *)

Lemma split_ws_word_app (w rest : string) :
  is_word w ->
  rest = "" \/ (exists c r, rest = String c r /\ Py.is_space c = true) ->
  Py.split_ws (w ++ rest) = w :: Py.split_ws rest.
Proof.
  intros [Hne Hw] Hrest. induction w as [|c w IH]; [congruence|].
  cbn [no_space] in Hw. apply andb_true_iff in Hw as [Hc Hw].
  apply negb_true_iff in Hc.
  cbn [append Py.split_ws]. rewrite Hc.
  destruct w as [|c2 w].
  - cbn [append]. destruct Hrest as [->|(c' & r & -> & Hsp)]; [reflexivity|].
    now rewrite Hsp.
  - cbn [append]. cbn [append] in IH.
    assert (Hc2 : Py.is_space c2 = false).
    { cbn [no_space] in Hw. apply andb_true_iff in Hw as [Hc2 _].
      now apply negb_true_iff. }
    rewrite Hc2. rewrite IH by (discriminate || assumption).
    reflexivity.
Qed.

(** White-space separated words are what [split()] gives back. *)
Lemma split_ws_join (words : list string) :
  Forall is_word words ->
  Py.split_ws (String.concat " " words) = words.
Proof.
  induction 1 as [|w words Hw Hwords IH]; [reflexivity|].
  cbn [String.concat]. destruct words as [|w' words].
  - transitivity (Py.split_ws (w ++ "")).
    + f_equal. clear. induction w as [|c w IHw]; simpl; congruence.
    + now rewrite (split_ws_word_app w "" Hw) by now left.
  - rewrite (split_ws_word_app w _ Hw).
    + f_equal. exact IH.
    + right. eexists _, _. split; reflexivity.
Qed.

(** C7: with the result code zero the function returns the white-space
    separated words of the standard output (the words themselves when the
    output is words joined by blanks, so ["1 2"] gives [["1"; "2"]]), and
    with another result code and [expect_success] true it raises
    [ProcessIdsFailed]; the two calls of the unit test behave so. *)
Theorem get_process_id_list_result
  (run_on_unit : string -> string -> CommandResult)
  (unit_name process_name : string) :
  (forall expect_success : bool,
      Code (run_on_unit unit_name (pidof_command process_name expect_success))
      = 0%Z ->
      get_process_id_list run_on_unit unit_name process_name expect_success
      = Ok (Py.split_ws
              (Stdout (run_on_unit unit_name
                         (pidof_command process_name expect_success)))))
  /\ (forall (expect_success : bool) (pids : list string),
        Code (run_on_unit unit_name
                (pidof_command process_name expect_success)) = 0%Z ->
        Stdout (run_on_unit unit_name
                  (pidof_command process_name expect_success))
        = String.concat " " pids ->
        Forall is_word pids ->
        get_process_id_list run_on_unit unit_name process_name expect_success
        = Ok pids)
  /\ (Code (run_on_unit unit_name (pidof_command process_name true)) <> 0%Z ->
      get_process_id_list run_on_unit unit_name process_name true
      = Raise ProcessIdsFailed)
  /\ get_process_id_list
       (fun _ _ => {| Code := 0; Stdout := "1 2"; Stderr := "" |})
       "ceph-osd/0" "ceph-osd" false
     = Ok ["1"; "2"]
  /\ get_process_id_list
       (fun _ _ => {| Code := 1; Stdout := "";
                      Stderr := "Something went wrong" |})
       "ceph-osd/0" "ceph" true
     = Raise ProcessIdsFailed.
Proof.
  assert (H0 : forall expect_success : bool,
      Code (run_on_unit unit_name (pidof_command process_name expect_success))
      = 0%Z ->
      get_process_id_list run_on_unit unit_name process_name expect_success
      = Ok (Py.split_ws
              (Stdout (run_on_unit unit_name
                         (pidof_command process_name expect_success))))).
  { intros es H. unfold get_process_id_list. cbv zeta. now rewrite H. }
  split; [exact H0|]. split; [|split; [|split; reflexivity]].
  - intros es pids Hcode Hout Hwords.
    now rewrite (H0 es Hcode), Hout, split_ws_join.
  - intros H. unfold get_process_id_list. cbv zeta.
    apply Z.eqb_neq in H. now rewrite H.
Qed.

(** * Further properties of upgrade_utils.py *)

(** ** The charm-name filters *)

Lemma starts_with_spec (sub s : string) :
  Py.starts_with sub s = true <-> exists b, s = (sub ++ b)%string.
Proof.
  revert s. induction sub as [|a sub IH]; intros s.
  - simpl. split; [eauto | reflexivity].
  - destruct s as [|c s]; cbn [Py.starts_with append].
    + split; [discriminate | intros [b H]; discriminate].
    + rewrite andb_true_iff, IH. split.
      * intros [E [b ->]]. apply Ascii.eqb_eq in E. subst. eauto.
      * intros [b E]. injection E as -> ->.
        split; [apply Ascii.eqb_refl | eauto].
Qed.

Lemma str_contains_spec (sub s : string) :
  Py.str_contains sub s = true <->
  exists a b, s = (a ++ sub ++ b)%string.
Proof.
  induction s as [|c s IH].
  - cbn [Py.str_contains]. rewrite orb_false_r, starts_with_spec. split.
    + intros [b E]. exists "", b. exact E.
    + intros (a & b & E). exists b. destruct a; [exact E | discriminate].
  - cbn [Py.str_contains]. rewrite orb_true_iff, starts_with_spec, IH. split.
    + intros [[b E]|(a & b & E)].
      * exists "", b. exact E.
      * exists (String c a), b. simpl. now rewrite E.
    + intros (a & b & E). destruct a as [|c' a].
      * left. eauto.
      * right. injection E as -> ->. eauto.
Qed.

Lemma charm_name_filter_iff (sub : string) (filt : Filter) (app : string)
  (cfg : AppConfig) (model_name : option string) :
  (forall app cfg model_name,
      filt app cfg model_name
      = (charm_name <- extract_charm_name_from_url (Some (charm cfg)) ;;
         if Py.str_contains sub charm_name then Ok true else Ok false)) ->
  exists charm_name,
    extract_charm_name_from_url (Some (charm cfg)) = Ok charm_name
    /\ (filt app cfg model_name = Ok true
        <-> exists a b, charm_name = (a ++ sub ++ b)%string)
    /\ (filt app cfg model_name = Ok false
        <-> ~ exists a b, charm_name = (a ++ sub ++ b)%string).
Proof.
  intros Hfilt. rewrite Hfilt, extract_charm_name_from_url_eq. cbn [bind].
  eexists. split; [reflexivity|].
  rewrite <- str_contains_spec.
  destruct (Py.str_contains sub _); split; split; congruence.
Qed.

(** X1: the filters [_filter_easyrsa], [_filter_etcd] and [_filter_memcached]
    never raise, look at the extracted charm name only (not at the name
    of the application), and exclude exactly when the charm name has
    [easyrsa], [etcd] or [memcached] somewhere in it. *)
Theorem charm_name_filters_substring (app : string) (cfg : AppConfig)
  (model_name : option string) :
  exists charm_name,
    extract_charm_name_from_url (Some (charm cfg)) = Ok charm_name
    /\ (_filter_easyrsa app cfg model_name = Ok true
        <-> exists a b, charm_name = (a ++ "easyrsa" ++ b)%string)
    /\ (_filter_easyrsa app cfg model_name = Ok false
        <-> ~ exists a b, charm_name = (a ++ "easyrsa" ++ b)%string)
    /\ (_filter_etcd app cfg model_name = Ok true
        <-> exists a b, charm_name = (a ++ "etcd" ++ b)%string)
    /\ (_filter_etcd app cfg model_name = Ok false
        <-> ~ exists a b, charm_name = (a ++ "etcd" ++ b)%string)
    /\ (_filter_memcached app cfg model_name = Ok true
        <-> exists a b, charm_name = (a ++ "memcached" ++ b)%string)
    /\ (_filter_memcached app cfg model_name = Ok false
        <-> ~ exists a b, charm_name = (a ++ "memcached" ++ b)%string).
Proof.
  destruct (charm_name_filter_iff "easyrsa" _filter_easyrsa app cfg
              model_name (fun _ _ _ => eq_refl)) as (n1 & E1 & H1 & H1').
  destruct (charm_name_filter_iff "etcd" _filter_etcd app cfg
              model_name (fun _ _ _ => eq_refl)) as (n2 & E2 & H2 & H2').
  destruct (charm_name_filter_iff "memcached" _filter_memcached app cfg
              model_name (fun _ _ _ => eq_refl)) as (n3 & E3 & H3 & H3').
  assert (n2 = n1) by congruence. assert (n3 = n1) by congruence. subst.
  exists n1. split; [exact E1|]. tauto.
Qed.

(** ** Exceptions and order in the filter chain *)

Lemma include_app_app (app : string) (cfg : AppConfig)
  (fs gs : list Filter) (model_name : option string) :
  _include_app app cfg (fs ++ gs) model_name
  = (included <- _include_app app cfg fs model_name ;;
     if included then _include_app app cfg gs model_name else Ok false).
Proof.
  induction fs as [|f fs IH]; [reflexivity|].
  cbn [List.app _include_app].
  destruct (f app cfg model_name) as [[|]|e]; cbn [bind];
    [reflexivity | exact IH | reflexivity].
Qed.

Lemma include_app_all_false (app : string) (cfg : AppConfig)
  (fs : list Filter) (model_name : option string) :
  Forall (fun g => g app cfg model_name = Ok false) fs ->
  _include_app app cfg fs model_name = Ok true.
Proof. apply include_app_true_iff. Qed.

(** X2: [_include_app] raises exactly when a filter raises after all the
    filters before it returned false, and then with the exception of that
    filter; the filters behind the first one that does not return false
    are not evaluated, so that they cannot change the outcome. *)
Theorem include_app_first_decides (app : string) (cfg : AppConfig)
  (model_name : option string) :
  (forall (filters : list Filter) (e : exn),
      _include_app app cfg filters model_name = Raise e <->
      exists before filt after,
        filters = before ++ filt :: after
        /\ Forall (fun g => g app cfg model_name = Ok false) before
        /\ filt app cfg model_name = Raise e)
  /\ (forall (before after after' : list Filter) (filt : Filter),
        Forall (fun g => g app cfg model_name = Ok false) before ->
        filt app cfg model_name <> Ok false ->
        _include_app app cfg (before ++ filt :: after) model_name
        = _include_app app cfg (before ++ filt :: after') model_name).
Proof.
  split.
  - intros filters e. induction filters as [|f fs IH]; simpl.
    + split; [discriminate|].
      intros (before & filt & after & E & _). now destruct before.
    + destruct (f app cfg model_name) as [[|]|x] eqn:E; simpl.
      * split; [discriminate|].
        intros (before & filt & after & Efs & Hb & Hf).
        destruct before as [|g before]; simpl in Efs.
        -- injection Efs as -> ->. congruence.
        -- injection Efs as -> ->. inversion Hb; subst. congruence.
      * rewrite IH. split.
        -- intros (before & filt & after & -> & Hb & Hf).
           exists (f :: before), filt, after. auto.
        -- intros (before & filt & after & Efs & Hb & Hf).
           destruct before as [|g before]; simpl in Efs.
           ++ injection Efs as -> ->. congruence.
           ++ injection Efs as -> ->. inversion Hb; subst.
              exists before, filt, after. auto.
      * split.
        -- intros H. injection H as ->. exists [], f, fs. auto.
        -- intros (before & filt & after & Efs & Hb & Hf).
           destruct before as [|g before]; simpl in Efs.
           ++ injection Efs as -> ->. congruence.
           ++ injection Efs as -> ->. inversion Hb; subst. congruence.
  - intros before after after' filt Hb Hf.
    rewrite !include_app_app, (include_app_all_false _ _ _ _ Hb).
    cbn [bind _include_app].
    destruct (filt app cfg model_name) as [[|]|x]; cbn [bind];
      congruence.
Qed.

Lemma include_app_returns (app : string) (cfg : AppConfig)
  (fs : list Filter) (model_name : option string) :
  Forall (fun f => exists b, f app cfg model_name = Ok b) fs ->
  _include_app app cfg fs model_name
  = Ok (forallb (fun f => match f app cfg model_name with
                          | Ok true => false
                          | _ => true
                          end) fs).
Proof.
  induction 1 as [|f fs [b Hb] _ IH]; [reflexivity|].
  cbn [_include_app forallb]. rewrite Hb. cbn [bind].
  destruct b; [reflexivity | exact IH].
Qed.

Lemma forallb_Permutation {A : Type} (p : A -> bool) (l l' : list A) :
  Permutation l l' -> forallb p l = forallb p l'.
Proof.
  induction 1 as [|x l l' _ IH|x y l|l l' l'' _ IH1 _ IH2]; simpl.
  - reflexivity.
  - now rewrite IH.
  - now rewrite !andb_assoc, (andb_comm (p y)).
  - congruence.
Qed.

Lemma candidates_loop_ext (items : list (string * AppConfig))
  (fs gs : list Filter) (model_name : option string) :
  (forall app cfg, In (app, cfg) items ->
     _include_app app cfg fs model_name
     = _include_app app cfg gs model_name) ->
  candidates_loop items fs model_name = candidates_loop items gs model_name.
Proof.
  induction items as [|[app cfg] rest IH]; intros H; [reflexivity|].
  cbn [candidates_loop].
  rewrite (H app cfg) by now left.
  now rewrite IH by (intros; apply H; now right).
Qed.

(** When every filter returns a boolean on every application of the
    status, the order of functions of the arguments in the chain does not
    change the candidates. *)
Lemma candidates_order_of_functions
  (get_status : option string -> list (string * AppConfig))
  (model_name : option string) (filters filters' : list Filter) :
  Permutation filters filters' ->
  (forall filt app cfg,
      In filt filters -> In (app, cfg) (get_status model_name) ->
      exists b, filt app cfg model_name = Ok b) ->
  get_upgrade_candidates get_status model_name (Some filters)
  = get_upgrade_candidates get_status model_name (Some filters').
Proof.
  intros Hperm Hret. unfold get_upgrade_candidates.
  apply candidates_loop_ext. intros app cfg Hin.
  rewrite !include_app_returns.
  - f_equal. now apply forallb_Permutation.
  - apply Forall_forall. intros f Hf. apply (Hret f app cfg); [|exact Hin].
    apply (Permutation_in f (Permutation_sym Hperm) Hf).
  - apply Forall_forall. intros f Hf. now apply (Hret f app cfg).
Qed.

Lemma example_filters_each_return (filt : Filter) (app : string)
  (cfg : AppConfig) :
  In filt example_filters -> In (app, cfg) example_status ->
  exists b, filt app cfg None = Ok b.
Proof.
  intros Hf Hin.
  assert (H1 : exists b, _filter_subordinates app cfg None = Ok b).
  { unfold _filter_subordinates. destruct (subordinate_to cfg); eauto. }
  assert (H2 : exists b, _filter_openstack_upgrade_list app cfg None = Ok b).
  { rewrite filter_openstack_upgrade_list_eq. eauto. }
  destruct Hf as [<-|[<-|[]]]; assumption.
Qed.

(** ** The candidates *)

Lemma survives_eq (fs : list Filter) (model_name : option string)
  (app : string) (cfg : AppConfig) :
  survives fs model_name (app, cfg)
  = match _include_app app cfg fs model_name with
    | Ok true => true
    | _ => false
    end.
Proof. reflexivity. Qed.

Lemma candidates_loop_Ok_iff (items cands : list (string * AppConfig))
  (fs : list Filter) (model_name : option string) :
  candidates_loop items fs model_name = Ok cands <->
  (forall app cfg, In (app, cfg) items ->
     exists b, _include_app app cfg fs model_name = Ok b)
  /\ cands = filter (survives fs model_name) items.
Proof.
  split.
  - revert cands. induction items as [|[app cfg] rest IH]; intros cands H.
    + injection H as <-. split; [intros ? ? []|reflexivity].
    + cbn [candidates_loop] in H.
      apply bind_Ok_inv in H as (inc & Hinc & H).
      apply bind_Ok_inv in H as (tail & Htail & H). injection H as <-.
      destruct (IH tail Htail) as [Hret ->]. split.
      * intros a c [E|Hin]; [injection E as <- <-; eauto | eauto].
      * cbn [filter]. rewrite (survives_eq fs model_name app cfg), Hinc.
        now destruct inc.
  - intros [Hret ->]. now apply candidates_loop_eq.
Qed.

Lemma candidates_loop_Raise_iff (items : list (string * AppConfig))
  (fs : list Filter) (model_name : option string) (e : exn) :
  candidates_loop items fs model_name = Raise e <->
  exists before app cfg after,
    items = before ++ (app, cfg) :: after
    /\ (forall a c, In (a, c) before ->
          exists b, _include_app a c fs model_name = Ok b)
    /\ _include_app app cfg fs model_name = Raise e.
Proof.
  induction items as [|[app cfg] rest IH].
  - split; [discriminate|].
    intros (before & a & c & after & E & _). now destruct before.
  - cbn [candidates_loop].
    destruct (_include_app app cfg fs model_name) as [inc|x] eqn:Hinc;
      cbn [bind].
    + split.
      * intros H.
        destruct (candidates_loop rest fs model_name) as [tail|y] eqn:Hrest;
          [discriminate|].
        cbn [bind] in H. injection H as ->.
        destruct (proj1 IH eq_refl)
          as (before & a & c & after & -> & Hb & Ha).
        exists ((app, cfg) :: before), a, c, after.
        split; [reflexivity|]. split; [|exact Ha].
        intros a' c' [E|Hin]; [injection E as <- <-; eauto | eauto].
      * intros (before & a & c & after & E & Hb & Ha).
        destruct before as [|[a0 c0] before]; simpl in E.
        -- injection E as -> -> ->. congruence.
        -- injection E as -> -> ->.
           assert (Hrest : candidates_loop (before ++ (a, c) :: after) fs
                             model_name = Raise e).
           { apply IH. exists before, a, c, after.
             split; [reflexivity|]. split; [|exact Ha].
             intros a' c' Hin. apply Hb. now right. }
           now rewrite Hrest.
    + split.
      * intros H. injection H as ->. exists [], app, cfg, rest.
        split; [reflexivity|]. split; [intros ? ? []|exact Hinc].
      * intros (before & a & c & after & E & Hb & Ha).
        destruct before as [|[a0 c0] before]; simpl in E.
        -- injection E as -> -> ->. congruence.
        -- injection E as -> -> ->.
           destruct (Hb a0 c0 (or_introl eq_refl)) as [b Hb'].
           congruence.
Qed.

(** X3: [get_upgrade_candidates] returns when [_include_app] returns for
    every application of the status, and then it returns the accepted
    entries of the status, each with its configuration and in the order
    of the status; otherwise it raises what [_include_app] raises on the
    first application, in the order of the status, on which it raises.
    Without filters ([None], the default) it returns the whole status. *)
Theorem get_upgrade_candidates_result
  (get_status : option string -> list (string * AppConfig))
  (model_name : option string) (filters : list Filter) :
  (forall cands,
      get_upgrade_candidates get_status model_name (Some filters) = Ok cands
      <-> (forall app cfg, In (app, cfg) (get_status model_name) ->
             exists b, _include_app app cfg filters model_name = Ok b)
          /\ cands = filter (survives filters model_name)
                       (get_status model_name))
  /\ (forall e,
        get_upgrade_candidates get_status model_name (Some filters)
        = Raise e
        <-> exists before app cfg after,
              get_status model_name = before ++ (app, cfg) :: after
              /\ (forall a c, In (a, c) before ->
                    exists b, _include_app a c filters model_name = Ok b)
              /\ _include_app app cfg filters model_name = Raise e)
  /\ (forall app cfg,
        survives filters model_name (app, cfg) = true
        <-> Forall (fun filt => filt app cfg model_name = Ok false) filters)
  /\ get_upgrade_candidates get_status model_name None
     = Ok (get_status model_name)
  /\ get_upgrade_candidates get_status model_name (Some [])
     = Ok (get_status model_name).
Proof.
  assert (Hall : forall items,
            candidates_loop items [] model_name = Ok items).
  { intros items. apply candidates_loop_Ok_iff. split.
    - intros app cfg _. exists true. reflexivity.
    - induction items as [|x items IH]; [reflexivity|].
      cbn [filter]. destruct x as [app cfg].
      rewrite (survives_eq [] model_name app cfg). cbn [_include_app].
      now rewrite <- IH. }
  unfold get_upgrade_candidates.
  split; [intros; apply candidates_loop_Ok_iff|].
  split; [intros; apply candidates_loop_Raise_iff|].
  split; [|split; apply Hall].
  intros app cfg. rewrite survives_spec. apply include_app_true_iff.
Qed.

Lemma candidates_loop_app (items : list (string * AppConfig))
  (fs gs : list Filter) (model_name : option string)
  (cands : list (string * AppConfig)) :
  candidates_loop items (fs ++ gs) model_name = Ok cands <->
  exists mid,
    candidates_loop items fs model_name = Ok mid
    /\ candidates_loop mid gs model_name = Ok cands.
Proof.
  rewrite candidates_loop_Ok_iff. split.
  - intros [Hret ->].
    exists (filter (survives fs model_name) items). split.
    + apply candidates_loop_Ok_iff. split; [|reflexivity].
      intros app cfg Hin. destruct (Hret app cfg Hin) as [b Hb].
      rewrite include_app_app in Hb.
      destruct (_include_app app cfg fs model_name); [eauto|discriminate].
    + apply candidates_loop_Ok_iff. split.
      * intros app cfg Hin. apply filter_In in Hin as [Hin Hs].
        apply survives_spec in Hs. cbn [fst snd] in Hs.
        destruct (Hret app cfg Hin) as [b Hb].
        rewrite include_app_app, Hs in Hb. eauto.
      * clear Hret. induction items as [|[app cfg] rest IH]; [reflexivity|].
        cbn [filter].
        rewrite (survives_eq (fs ++ gs) model_name app cfg),
          (survives_eq fs model_name app cfg), include_app_app.
        destruct (_include_app app cfg fs model_name) as [[|]|x];
          cbn [bind filter]; [|exact IH|exact IH].
        rewrite (survives_eq gs model_name app cfg).
        destruct (_include_app app cfg gs model_name) as [[|]|y];
          now rewrite IH.
  - intros (mid & Hmid & Hc).
    apply candidates_loop_Ok_iff in Hmid as [Hfs ->].
    apply candidates_loop_Ok_iff in Hc as [Hgs ->]. split.
    + intros app cfg Hin. rewrite include_app_app.
      destruct (Hfs app cfg Hin) as [[|] Hb]; rewrite Hb; cbn [bind];
        [|eauto].
      apply Hgs. apply filter_In. split; [exact Hin|].
      now apply survives_spec.
    + clear Hfs Hgs. induction items as [|[app cfg] rest IH]; [reflexivity|].
      cbn [filter].
      rewrite (survives_eq (fs ++ gs) model_name app cfg),
        (survives_eq fs model_name app cfg), include_app_app.
      destruct (_include_app app cfg fs model_name) as [[|]|x];
        cbn [bind filter]; [|exact IH|exact IH].
      rewrite (survives_eq gs model_name app cfg).
      destruct (_include_app app cfg gs model_name) as [[|]|y];
        now rewrite IH.
Qed.

(** A chain of functions of the arguments [filters ++ more] gives
    candidates exactly when the chain [filters] gives candidates and the
    chain [more], run on those candidates as the status, gives
    candidates; and they are the same. *)
Lemma candidates_append_of_functions
  (get_status : option string -> list (string * AppConfig))
  (model_name : option string) (filters more : list Filter)
  (cands : list (string * AppConfig)) :
  get_upgrade_candidates get_status model_name (Some (filters ++ more))
  = Ok cands
  <-> exists kept,
        get_upgrade_candidates get_status model_name (Some filters)
        = Ok kept
        /\ get_upgrade_candidates (fun _ => kept) model_name (Some more)
           = Ok cands.
Proof. unfold get_upgrade_candidates. apply candidates_loop_app. Qed.

(** ** The extracted charm name *)

Lemma contains_after_last_self (c : ascii) (s : string) :
  Py.contains c (after_last c s) = false.
Proof.
  induction s as [|a s IH]; [reflexivity|].
  cbn [after_last].
  destruct (Py.contains c s) eqn:Hs; [exact IH|].
  destruct (a =? c)%char eqn:Ha; [exact Hs|].
  cbn [Py.contains]. now rewrite Ha, Hs.
Qed.

Lemma after_last_both (prefix name : string) (sep : ascii) :
  sep = "/"%char \/ sep = ":"%char ->
  Py.contains "/" name = false -> Py.contains ":" name = false ->
  after_last ":" (after_last "/" (prefix ++ String sep name)%string) = name.
Proof.
  intros [-> | ->] Hslash Hcolon.
  - rewrite (after_last_append "/" prefix name Hslash).
    now apply after_last_without_sep.
  - rewrite after_last_comm by discriminate.
    rewrite (after_last_append ":" prefix name Hcolon).
    now apply after_last_without_sep.
Qed.

Lemma extract_last_piece (prefix name : string) (sep : ascii) :
  sep = "/"%char \/ sep = ":"%char ->
  Py.contains "/" name = false -> Py.contains ":" name = false ->
  extract_charm_name_from_url (Some (prefix ++ String sep name)%string)
  = Ok (Py.re_sub_revision name).
Proof.
  intros Hsep Hslash Hcolon.
  rewrite extract_charm_name_from_url_eq.
  rewrite <- (re_sub_after_last ":" _ colon_outside_revision) by discriminate.
  now rewrite after_last_both.
Qed.

(** X6: the extracted charm name holds neither ["/"] nor [":"].  Extracting
    once more from a name is one more substitution of the revision
    pattern (so that a name such as [heat-1], kept from [heat-1-2], loses a
    further suffix); and a URL that ends in ["/"] or [":"] gives the empty
    name. *)
Theorem extract_name_without_separator :
  (forall s : string,
      exists name,
        extract_charm_name_from_url (Some s) = Ok name
        /\ Py.contains "/" name = false
        /\ Py.contains ":" name = false
        /\ extract_charm_name_from_url (Some name)
           = Ok (Py.re_sub_revision name))
  /\ (forall (prefix : string) (sep : ascii),
        sep = "/"%char \/ sep = ":"%char ->
        extract_charm_name_from_url
          (Some (prefix ++ String sep "")%string) = Ok "").
Proof.
  split.
  - intros s.
    set (name := after_last ":" (Py.re_sub_revision (after_last "/" s))).
    exists name. split; [apply extract_charm_name_from_url_eq|].
    assert (Hcolon : Py.contains ":" name = false)
      by apply contains_after_last_self.
    assert (Hslash : Py.contains "/" name = false).
    { apply contains_after_last.
      rewrite (contains_re_sub "/" _ slash_outside_revision) by discriminate.
      apply contains_after_last_self. }
    split; [exact Hslash|]. split; [exact Hcolon|].
    rewrite extract_charm_name_from_url_eq.
    rewrite (after_last_without_sep "/" name Hslash).
    rewrite after_last_without_sep; [reflexivity|].
    now rewrite (contains_re_sub ":" _ colon_outside_revision)
      by discriminate.
  - intros prefix sep Hsep.
    now rewrite (extract_last_piece prefix "" sep Hsep).
Qed.

Lemma digits_then_eos_cases (r left_over : string) :
  Py.digits_then_eos r = Some left_over ->
  (left_over = "" /\ all_digits r = true)
  \/ (left_over = String Py.newline ""
      /\ exists rev,
           r = (rev ++ String Py.newline "")%string
           /\ all_digits rev = true).
Proof.
  induction r as [|a r IH]; cbn [Py.digits_then_eos all_digits]; intros H.
  - injection H as <-. now left.
  - destruct (Py.is_digit a) eqn:Ha.
    + destruct (IH H) as [[-> Hr]|[-> (rev & -> & Hrev)]].
      * left. now rewrite Hr.
      * right. split; [reflexivity|]. exists (String a rev).
        cbn [append all_digits]. now rewrite Ha, Hrev.
    + destruct (Ascii.eqb_spec a Py.newline) as [->|]; [|discriminate].
      destruct (String.eqb_spec r "") as [->|]; [|discriminate].
      cbn [andb] in H. injection H as <-.
      right. split; [reflexivity|]. now exists "".
Qed.

(** What the substitution does to a string: nothing, or it removes a
    final ["-"] with digits, or it removes a ["-"] with digits that
    stands before a final newline and keeps the newline. *)
Lemma re_sub_cases (s : string) :
  Py.re_sub_revision s = s
  \/ (exists rev,
        rev <> "" /\ all_digits rev = true
        /\ s = (Py.re_sub_revision s ++ "-" ++ rev)%string)
  \/ (exists p rev,
        rev <> "" /\ all_digits rev = true
        /\ s = (p ++ "-" ++ rev ++ String Py.newline "")%string
        /\ Py.re_sub_revision s = (p ++ String Py.newline "")%string).
Proof.
  induction s as [|a s IH]; [now left|].
  cbn [Py.re_sub_revision].
  assert (Hkeep :
    String a (Py.re_sub_revision s) = String a s
    \/ (exists rev,
          rev <> "" /\ all_digits rev = true
          /\ String a s
             = (String a (Py.re_sub_revision s) ++ "-" ++ rev)%string)
    \/ (exists p rev,
          rev <> "" /\ all_digits rev = true
          /\ String a s
             = (p ++ "-" ++ rev ++ String Py.newline "")%string
          /\ String a (Py.re_sub_revision s)
             = (p ++ String Py.newline "")%string)).
  { destruct IH as [->|[(rev & Hne & Hrev & E)|(p & rev & Hne & Hrev & E & E')]].
    - now left.
    - right. left. exists rev. cbn [append] in *.
      split; [assumption|]. split; [assumption | congruence].
    - right. right. exists (String a p), rev. cbn [append] in *.
      split; [assumption|]. split; [assumption|].
      split; congruence. }
  destruct (Ascii.eqb_spec a "-") as [->|Ha]; [|exact Hkeep].
  destruct (Py.revision_then_eos s) as [left_over|] eqn:E; [|exact Hkeep].
  destruct s as [|d s]; [discriminate|]. cbn [Py.revision_then_eos] in E.
  destruct (Py.is_digit d) eqn:Hd; [|discriminate].
  destruct (digits_then_eos_cases s left_over E)
    as [[-> Hs]|[-> (rev & -> & Hrev)]].
  - right. left. exists (String d s). cbn [all_digits append].
    rewrite Hd, Hs. split; [discriminate|]. split; reflexivity.
  - right. right. exists "", (String d rev). cbn [all_digits append].
    rewrite Hd, Hrev. split; [discriminate|]. repeat split; reflexivity.
Qed.

Lemma re_sub_without_dash (s : string) :
  Py.contains "-" s = false -> Py.re_sub_revision s = s.
Proof.
  induction s as [|a s IH]; cbn [Py.contains Py.re_sub_revision];
    [reflexivity|].
  intros H. apply orb_false_iff in H as [Ha Hs].
  now rewrite Ha, (IH Hs).
Qed.

Lemma re_sub_before_newline (p rev : string) :
  rev <> "" -> all_digits rev = true ->
  Py.re_sub_revision (p ++ String "-" (rev ++ String Py.newline ""))%string
  = (p ++ String Py.newline "")%string.
Proof.
  intros Hne Hrev.
  assert (Hmatch : forall r, all_digits r = true ->
            Py.digits_then_eos (r ++ String Py.newline "")%string
            = Some (String Py.newline "")).
  { induction r as [|a r IHr]; cbn [append all_digits]; intros H.
    - reflexivity.
    - apply andb_true_iff in H as [Ha Hr].
      cbn [Py.digits_then_eos]. rewrite Ha. now apply IHr. }
  induction p as [|a p IH].
  - cbn [append Py.re_sub_revision]. rewrite Ascii.eqb_refl.
    destruct rev as [|d rev]; [congruence|].
    cbn [all_digits] in Hrev. apply andb_true_iff in Hrev as [Hd Hrev].
    cbn [append Py.revision_then_eos]. now rewrite Hd, (Hmatch rev Hrev).
  - cbn [append Py.re_sub_revision]. rewrite IH.
    destruct (a =? "-")%char; [|reflexivity].
    destruct (Py.revision_then_eos _) as [r|] eqn:E; [|reflexivity].
    apply (revision_then_eos_contains "-") in E as [E _];
      [|exact dash_outside_revision].
    rewrite contains_append in E. cbn [Py.contains] in E.
    now rewrite Ascii.eqb_refl, orb_true_r in E.
Qed.

(** X7: for a URL whose last piece is [name]: the extraction returns [name]
    itself, or [name] without a final ["-<digits>"], or, when [name] ends
    in a newline, [name] without the ["-<digits>"] that stands before that
    newline.  At most one such suffix goes; a [name] without ["-"] is
    returned as it is; a revision before a final newline is removed and
    the newline stays. *)
Theorem extract_strips_at_most_one_revision (prefix name : string) :
  Py.contains "/" name = false -> Py.contains ":" name = false ->
  exists kept,
    extract_charm_name_from_url (Some (prefix ++ String "/" name)%string)
    = Ok kept
    /\ (kept = name
        \/ (exists rev,
              rev <> "" /\ all_digits rev = true
              /\ name = (kept ++ "-" ++ rev)%string)
        \/ (exists p rev,
              rev <> "" /\ all_digits rev = true
              /\ name = (p ++ "-" ++ rev ++ String Py.newline "")%string
              /\ kept = (p ++ String Py.newline "")%string))
    /\ (Py.contains "-" name = false -> kept = name)
    /\ (forall p rev,
          rev <> "" -> all_digits rev = true ->
          name = (p ++ "-" ++ rev ++ String Py.newline "")%string ->
          kept = (p ++ String Py.newline "")%string).
Proof.
  intros Hslash Hcolon. exists (Py.re_sub_revision name).
  split; [apply extract_last_piece; auto|].
  split; [apply re_sub_cases|].
  split; [apply re_sub_without_dash|].
  intros p rev Hne Hrev ->. now apply re_sub_before_newline.
Qed.

Lemma extract_strips_at_most_one_revision_witness :
  Py.contains "/" "heat-1-2" = false
  /\ Py.contains ":" "heat-1-2" = false
  /\ extract_charm_name_from_url (Some "local:bionic/heat-1-2") = Ok "heat-1".
Proof.
  split; [reflexivity|]. split; [reflexivity|].
  destruct (extract_strips_at_most_one_revision "local:bionic" "heat-1-2"
              eq_refl eq_refl) as (kept & E & _).
  reflexivity.
Defined.

(** ** The order of the status does not matter *)

Lemma str_le_trans (s t u : string) :
  str_le s t -> str_le t u -> str_le s u.
Proof.
  unfold str_le, String.leb. revert t u.
  induction s as [|a s IH]; intros [|b t] [|c u]; cbn [String.compare];
    try congruence.
  unfold Ascii.compare.
  destruct (N.compare_spec (N_of_ascii a) (N_of_ascii b)) as [Hab|Hab|Hab];
    destruct (N.compare_spec (N_of_ascii b) (N_of_ascii c)) as [Hbc|Hbc|Hbc];
    destruct (N.compare_spec (N_of_ascii a) (N_of_ascii c)) as [Hac|Hac|Hac];
    try congruence; try lia.
  apply IH.
Qed.

Lemma str_le_antisym (s t : string) : str_le s t -> str_le t s -> s = t.
Proof. apply String.leb_antisym. Qed.

Lemma Sorted_str_le_strong (l : list string) :
  Sorted str_le l -> StronglySorted str_le l.
Proof.
  apply Sorted_StronglySorted. intros s t u. apply str_le_trans.
Qed.

(** A list of strings has one sorted arrangement. *)
Lemma Sorted_str_le_unique (l l' : list string) :
  Sorted str_le l -> Sorted str_le l' -> Permutation l l' -> l = l'.
Proof.
  intros Hl Hl'. apply Sorted_str_le_strong in Hl, Hl'.
  revert l' Hl'. induction Hl as [|h t Ht IH Hh]; intros l' Hl' Hperm.
  - apply Permutation_nil in Hperm. now subst.
  - destruct Hl' as [|h' t' Ht' Hh'].
    + apply Permutation_sym, Permutation_nil in Hperm. discriminate.
    + assert (E : h = h').
      { rewrite Forall_forall in Hh, Hh'.
        assert (H1 : In h (h' :: t'))
          by (apply (Permutation_in h Hperm); now left).
        assert (H2 : In h' (h :: t))
          by (apply (Permutation_in h' (Permutation_sym Hperm)); now left).
        destruct H1 as [H1|H1]; [now subst|].
        destruct H2 as [H2|H2]; [now subst|].
        apply str_le_antisym; auto. }
      subst h'. f_equal. apply IH; [exact Ht'|].
      now apply Permutation_cons_inv in Hperm.
Qed.

Lemma list_sort_Permutation (l l' : list string) :
  Permutation l l' -> Py.list_sort l = Py.list_sort l'.
Proof.
  intros H. apply Sorted_str_le_unique; try apply list_sort_Sorted.
  rewrite (list_sort_perm l), (list_sort_perm l'). exact H.
Qed.

Lemma filter_Permutation {A : Type} (p : A -> bool) (l l' : list A) :
  Permutation l l' -> Permutation (filter p l) (filter p l').
Proof.
  induction 1 as [|x l l' _ IH|x y l|l l' l'' _ IH1 _ IH2]; simpl.
  - reflexivity.
  - destruct (p x); [now constructor | exact IH].
  - destruct (p x), (p y); try reflexivity. apply perm_swap.
  - now transitivity (filter p l').
Qed.

(** X8: two mappings with the same entries in another order (distinct names)
    are placed into the same groups: the result of
    [_build_service_groups] does not depend on the order in which the
    status lists the applications. *)
Theorem build_service_groups_order_independent
  (applications applications' : list (string * AppConfig)) :
  NoDup (map fst applications) ->
  Permutation applications applications' ->
  _build_service_groups applications = _build_service_groups applications'.
Proof.
  intros Hnd Hperm.
  assert (Hnd' : NoDup (map fst applications')).
  { apply (Permutation_NoDup (l := map fst applications)); [|exact Hnd].
    now apply Permutation_map. }
  rewrite (build_service_groups_groups _ Hnd),
    (build_service_groups_groups _ Hnd').
  f_equal. f_equal.
  - apply map_ext. intros sg. f_equal.
    apply list_sort_Permutation. unfold apps_with_charm_in.
    now apply Permutation_map, filter_Permutation.
  - do 2 f_equal. apply list_sort_Permutation. unfold apps_without_group.
    now apply Permutation_map, filter_Permutation.
Qed.

Lemma build_service_groups_order_independent_witness :
  NoDup (map fst example_status)
  /\ Permutation example_status (rev example_status)
  /\ _build_service_groups example_status
     = _build_service_groups (rev example_status).
Proof.
  split; [exact example_status_keys|].
  split; [apply Permutation_rev|].
  apply (build_service_groups_order_independent example_status
           (rev example_status) example_status_keys
           (Permutation_rev example_status)).
Defined.

(** ** What the entry points plan *)

Lemma apply_extra_filters_prefix (filters chain : list Filter)
  (extra_filters : py_extra_filters) :
  _apply_extra_filters filters extra_filters = Ok chain ->
  exists added, chain = filters ++ added.
Proof.
  unfold _apply_extra_filters.
  destruct extra_filters as [|fs|f [|]|[|]]; simpl.
  - intros H. injection H as <-. exists []. now rewrite app_nil_r.
  - destruct fs; intros H; injection H as <-;
      [exists []; now rewrite app_nil_r | eauto].
  - intros H. injection H as <-. eauto.
  - intros H. injection H as <-. exists []. now rewrite app_nil_r.
  - discriminate.
  - intros H. injection H as <-. exists []. now rewrite app_nil_r.
Qed.

Lemma build_service_groups_shape
  (applications : list (string * AppConfig))
  (groups : list (string * list string)) :
  _build_service_groups applications = Ok groups ->
  exists sweep_up,
    groups
    = map (fun sg =>
             (fst sg,
              Py.list_sort (apps_with_charm_in (snd sg) applications)))
        SERVICE_GROUPS
      ++ [("sweep_up", Py.list_sort sweep_up)]
    /\ incl sweep_up (map fst applications).
Proof.
  rewrite build_service_groups_eq. intros H. injection H as <-.
  eexists. split.
  - reflexivity.
  - intros app Hin. now apply filter_In in Hin as [Hin _].
Qed.

Lemma build_service_groups_members
  (applications : list (string * AppConfig))
  (groups : list (string * list string)) (app : string) :
  _build_service_groups applications = Ok groups ->
  In app (List.concat (map snd groups)) ->
  In app (map fst applications).
Proof.
  intros H Hin.
  apply build_service_groups_shape in H as (sweep_up & -> & Hsweep).
  apply in_concat in Hin as (g & Hg & Happ).
  apply in_map_iff in Hg as ([name members] & <- & Hg). cbn [snd] in Happ.
  apply in_app_or in Hg as [Hg|[Hg|[]]].
  - apply in_map_iff in Hg as (sg & E & _). injection E as _ <-.
    apply In_list_sort, In_apps_with_charm_in in Happ as (cfg & Hcfg & _).
    now apply (in_map fst) in Hcfg.
  - injection Hg as _ <-. apply (proj1 (In_list_sort _ _)) in Happ.
    exact (Hsweep app Happ).
Qed.

(** The applications that a chain starting with the three default
    filters keeps. *)
Lemma full_chain_survivor
  (get_application_config : string -> option string -> list (string * string))
  (model_name : option string) (added : list Filter) (app : string)
  (cfg : AppConfig) :
  _include_app app cfg
    ([ _filter_subordinates;
       _filter_openstack_upgrade_list;
       _filter_non_openstack_services get_application_config ] ++ added)
    model_name = Ok true ->
  exists charm_name,
    extract_charm_name_from_url (Some (charm cfg)) = Ok charm_name
    /\ subordinate_to cfg = []
    /\ ~ In app UPGRADE_EXCLUDE_LIST
    /\ ~ In charm_name UPGRADE_EXCLUDE_LIST
    /\ (In "openstack-origin"
          (map fst (get_application_config app model_name))
        \/ In "source" (map fst (get_application_config app model_name))).
Proof.
  intros H. rewrite include_app_app in H.
  apply bind_Ok_inv in H as (b & Hb & H).
  destruct b.
  2: { discriminate. }
  clear H. apply include_app_true_iff in Hb.
  inversion Hb as [|? ? H1 Hb1]; subst.
  inversion Hb1 as [|? ? H2 Hb2]; subst.
  inversion Hb2 as [|? ? H3 _]; subst.
  eexists. split; [apply extract_charm_name_from_url_eq|].
  apply filter_subordinates_eq in H1.
  eapply filter_openstack_upgrade_list_iff in H2 as [H2 H2'];
    [|apply extract_charm_name_from_url_eq].
  apply (filter_non_openstack_services_iff get_application_config) in H3.
  auto.
Qed.

Section Plans.

Variable get_status : option string -> list (string * AppConfig).
Variable get_application_config :
  string -> option string -> list (string * string).
Variable model_name : option string.

(** X9: extra filters cannot bring back what the default filters exclude:
    whatever is passed as [extra_filters], every application in a result
    of [get_upgrade_groups] is an application of the status that is no
    subordinate, is not on the exclude list by its name or its charm name
    and has a source option; and every application in a result of
    [get_series_upgrade_groups] is no subordinate. *)
Theorem extra_filters_keep_defaults (extra_filters : py_extra_filters) :
  (forall groups,
      get_upgrade_groups get_status get_application_config model_name
        extra_filters = Ok groups ->
      forall app,
        In app (List.concat (map snd groups)) ->
        exists cfg charm_name,
          In (app, cfg) (get_status model_name)
          /\ extract_charm_name_from_url (Some (charm cfg)) = Ok charm_name
          /\ subordinate_to cfg = []
          /\ ~ In app UPGRADE_EXCLUDE_LIST
          /\ ~ In charm_name UPGRADE_EXCLUDE_LIST
          /\ (In "openstack-origin"
                (map fst (get_application_config app model_name))
              \/ In "source"
                   (map fst (get_application_config app model_name))))
  /\ (forall groups,
        get_series_upgrade_groups get_status model_name extra_filters
        = Ok groups ->
        forall app,
          In app (List.concat (map snd groups)) ->
          exists cfg,
            In (app, cfg) (get_status model_name)
            /\ subordinate_to cfg = []).
Proof.
  split.
  - intros groups H app Happ.
    unfold get_upgrade_groups in H.
    apply bind_Ok_inv in H as (chain & Hchain & H).
    apply bind_Ok_inv in H as (cands & Hcands & H).
    apply apply_extra_filters_prefix in Hchain as [added ->].
    apply candidates_loop_Ok_iff in Hcands as [_ ->].
    apply (build_service_groups_members _ _ app H) in Happ.
    apply In_survivors in Happ as (cfg & Hin & Hinc).
    apply full_chain_survivor in Hinc as (n & Hn & Hrest).
    exists cfg, n. auto.
  - intros groups H app Happ.
    unfold get_series_upgrade_groups in H.
    apply bind_Ok_inv in H as (chain & Hchain & H).
    apply bind_Ok_inv in H as (cands & Hcands & H).
    apply apply_extra_filters_prefix in Hchain as [added ->].
    apply candidates_loop_Ok_iff in Hcands as [_ ->].
    apply (build_service_groups_members _ _ app H) in Happ.
    apply In_survivors in Happ as (cfg & Hin & Hinc).
    exists cfg. split; [exact Hin|].
    apply include_app_true_iff in Hinc.
    inversion Hinc as [|? ? H1 _]; subst.
    now apply filter_subordinates_eq in H1.
Qed.

(** X10: full-upgrade planning never places a [percona-cluster] or a
    [rabbitmq-server] charm: whatever is passed as [extra_filters], the
    members of Database Services all have the charm
    [mysql-innodb-cluster] and the members of Stateful Services all have
    the charm [ceph-mon]. *)
Theorem upgrade_groups_excluded_charms (extra_filters : py_extra_filters)
  (groups : list (string * list string)) :
  get_upgrade_groups get_status get_application_config model_name
    extra_filters = Ok groups ->
  (forall members app,
      In ("Database Services", members) groups -> In app members ->
      exists cfg,
        In (app, cfg) (get_status model_name)
        /\ extract_charm_name_from_url (Some (charm cfg))
           = Ok "mysql-innodb-cluster")
  /\ (forall members app,
        In ("Stateful Services", members) groups -> In app members ->
        exists cfg,
          In (app, cfg) (get_status model_name)
          /\ extract_charm_name_from_url (Some (charm cfg)) = Ok "ceph-mon").
Proof.
  intros H. unfold get_upgrade_groups in H.
  apply bind_Ok_inv in H as (chain & Hchain & H).
  apply bind_Ok_inv in H as (cands & Hcands & H).
  apply apply_extra_filters_prefix in Hchain as [added ->].
  apply candidates_loop_Ok_iff in Hcands as [_ ->].
  apply build_service_groups_shape in H as (sweep_up & -> & _).
  set (chain := [ _filter_subordinates;
                  _filter_openstack_upgrade_list;
                  _filter_non_openstack_services get_application_config ]
                ++ added).
  assert (Hmember : forall phase members app,
            In (phase, members)
              (map (fun sg =>
                      (fst sg,
                       Py.list_sort
                         (apps_with_charm_in (snd sg)
                            (filter (survives chain model_name)
                               (get_status model_name)))))
                 SERVICE_GROUPS ++ [("sweep_up", Py.list_sort sweep_up)]) ->
            phase <> "sweep_up" ->
            In app members ->
            exists charms cfg charm_name,
              In (phase, charms) SERVICE_GROUPS
              /\ In (app, cfg) (get_status model_name)
              /\ extract_charm_name_from_url (Some (charm cfg))
                 = Ok charm_name
              /\ In charm_name charms
              /\ ~ In charm_name UPGRADE_EXCLUDE_LIST).
  { intros phase members app Hg Hphase Happ.
    apply in_app_or in Hg as [Hg|[Hg|[]]]; [|congruence].
    apply in_map_iff in Hg as ([name charms] & E & Hsg).
    cbn [fst snd] in E. injection E as -> <-.
    apply In_list_sort, In_apps_with_charm_in in Happ as (cfg & Hin & Hc).
    apply filter_In in Hin as [Hin Hs]. apply survives_spec in Hs.
    cbn [fst snd] in Hs. unfold chain in Hs.
    apply full_chain_survivor in Hs as (n & Hn & _ & _ & Hexcl & _).
    apply has_charm_in_spec in Hc as (n' & Hn' & Hn'in).
    assert (n' = n) by congruence. subst n'.
    exists charms, cfg, n. auto. }
  split; intros members app Hg Happ;
    destruct (Hmember _ members app Hg ltac:(discriminate) Happ)
      as (charms & cfg & n & Hsg & Hin & Hn & Hnin & Hexcl);
    exists cfg; (split; [exact Hin|]); rewrite Hn; f_equal;
    simpl in Hsg;
    repeat (destruct Hsg as [Hsg|Hsg];
            [try discriminate; injection Hsg as <-|]);
    try contradiction;
    simpl in Hnin, Hexcl; intuition congruence.
Qed.

End Plans.

Lemma upgrade_groups_excluded_charms_witness :
  exists groups,
    get_upgrade_groups (fun _ => example_cluster)
      (fun _ _ => [("source", "distro")]) None ExtraNone = Ok groups
    /\ In ("Database Services", ["db"]) groups
    /\ In ("Stateful Services", ["mon"]) groups
    /\ (forall members app,
          In ("Database Services", members) groups -> In app members ->
          exists cfg,
            In (app, cfg) example_cluster
            /\ extract_charm_name_from_url (Some (charm cfg))
               = Ok "mysql-innodb-cluster")
    /\ (forall members app,
          In ("Stateful Services", members) groups -> In app members ->
          exists cfg,
            In (app, cfg) example_cluster
            /\ extract_charm_name_from_url (Some (charm cfg))
               = Ok "ceph-mon").
Proof.
  eexists. split; [vm_compute; reflexivity|].
  split; [now left|]. split; [right; now left|].
  apply (upgrade_groups_excluded_charms (fun _ => example_cluster)
           (fun _ _ => [("source", "distro")]) None ExtraNone).
  vm_compute. reflexivity.
Defined.

Lemma plan_groups_members
  (get_status : option string -> list (string * AppConfig))
  (model_name : option string) (filters : list Filter) :
  NoDup (map fst (get_status model_name)) ->
  (forall app cfg, In (app, cfg) (get_status model_name) ->
     exists b, _include_app app cfg filters model_name = Ok b) ->
  exists groups,
    plan_groups get_status model_name filters = Ok groups
    /\ Permutation (List.concat (map snd groups))
         (map fst
            (filter (survives filters model_name) (get_status model_name))).
Proof.
  intros Hnd Hret. eexists. split.
  - rewrite (plan_groups_eq _ _ _ Hret).
    apply build_service_groups_groups. now apply NoDup_keys_filter.
  - apply groups_members_perm.
Qed.

Section DefaultPlans.

Variable get_status : option string -> list (string * AppConfig).
Variable get_application_config :
  string -> option string -> list (string * string).
Variable model_name : option string.

(** X11: with the default [extra_filters] and a status of distinct names, the
    three entry points return and never raise.  Charm-upgrade planning
    places every application of the status exactly once; series-upgrade
    planning places exactly the applications that are no subordinates;
    full-upgrade planning places exactly those that moreover are not on
    the exclude list, by name or by charm name, and have a source option.
    So what full-upgrade planning places, series-upgrade planning places,
    and what series-upgrade planning places, charm-upgrade planning
    places. *)
Theorem default_plans :
  NoDup (map fst (get_status model_name)) ->
  exists full series every,
    get_upgrade_groups get_status get_application_config model_name
      ExtraNone = Ok full
    /\ get_series_upgrade_groups get_status model_name ExtraNone = Ok series
    /\ get_charm_upgrade_groups get_status model_name ExtraNone = Ok every
    /\ Permutation (List.concat (map snd every))
         (map fst (get_status model_name))
    /\ (forall app,
          In app (List.concat (map snd series)) <->
          exists cfg,
            In (app, cfg) (get_status model_name)
            /\ subordinate_to cfg = [])
    /\ (forall app,
          In app (List.concat (map snd full)) <->
          exists cfg charm_name,
            In (app, cfg) (get_status model_name)
            /\ extract_charm_name_from_url (Some (charm cfg))
               = Ok charm_name
            /\ subordinate_to cfg = []
            /\ ~ In app UPGRADE_EXCLUDE_LIST
            /\ ~ In charm_name UPGRADE_EXCLUDE_LIST
            /\ (In "openstack-origin"
                  (map fst (get_application_config app model_name))
                \/ In "source"
                     (map fst (get_application_config app model_name))))
    /\ incl (List.concat (map snd full)) (List.concat (map snd series))
    /\ incl (List.concat (map snd series)) (List.concat (map snd every)).
Proof.
  intros Hnd.
  destruct (plan_groups_members get_status model_name
              [ _filter_subordinates;
                _filter_openstack_upgrade_list;
                _filter_non_openstack_services get_application_config ] Hnd)
    as (full & Hfull & Pfull).
  { intros app cfg _. rewrite include_app_full_chain. eauto. }
  destruct (plan_groups_members get_status model_name
              [ _filter_subordinates ] Hnd) as (series & Hseries & Pseries).
  { intros app cfg _. cbn [_include_app]. unfold _filter_subordinates.
    destruct (subordinate_to cfg); cbn [bind]; eauto. }
  destruct (plan_groups_members get_status model_name [] Hnd)
    as (every & Hevery & Pevery).
  { intros app cfg _. exists true. reflexivity. }
  assert (Mfull : forall app,
            In app (List.concat (map snd full)) <->
            exists cfg charm_name,
              In (app, cfg) (get_status model_name)
              /\ extract_charm_name_from_url (Some (charm cfg))
                 = Ok charm_name
              /\ subordinate_to cfg = []
              /\ ~ In app UPGRADE_EXCLUDE_LIST
              /\ ~ In charm_name UPGRADE_EXCLUDE_LIST
              /\ (In "openstack-origin"
                    (map fst (get_application_config app model_name))
                  \/ In "source"
                       (map fst (get_application_config app model_name)))).
  { intros app. split.
    - intros H. apply (Permutation_in app Pfull) in H.
      apply In_survivors in H as (cfg & Hin & Hinc).
      apply (full_chain_survivor get_application_config model_name [])
        in Hinc as (n & Hrest).
      exists cfg, n. tauto.
    - intros (cfg & n & Hin & Hn & Hsub & Happ & Hcharm & Hsrc).
      apply (Permutation_in app (Permutation_sym Pfull)).
      apply In_survivors. exists cfg. split; [exact Hin|].
      rewrite include_app_full_chain, Hsub.
      rewrite extract_charm_name_from_url_eq in Hn. injection Hn as Hn.
      rewrite Hn. rewrite <- !str_in_In in *.
      destruct (Py.str_in app _), (Py.str_in n _),
        (Py.str_in "openstack-origin" _), (Py.str_in "source" _);
        simpl; intuition congruence. }
  assert (Mseries : forall app,
            In app (List.concat (map snd series)) <->
            exists cfg,
              In (app, cfg) (get_status model_name)
              /\ subordinate_to cfg = []).
  { intros app. split.
    - intros H. apply (Permutation_in app Pseries) in H.
      apply In_survivors in H as (cfg & Hin & Hinc).
      exists cfg. split; [exact Hin|].
      apply include_app_true_iff in Hinc.
      inversion Hinc as [|? ? H1 _]; subst.
      now apply filter_subordinates_eq in H1.
    - intros (cfg & Hin & Hsub).
      apply (Permutation_in app (Permutation_sym Pseries)).
      apply In_survivors. exists cfg. split; [exact Hin|].
      cbn [_include_app]. unfold _filter_subordinates. now rewrite Hsub. }
  assert (Pall : Permutation (List.concat (map snd every))
                   (map fst (get_status model_name))).
  { rewrite Pevery. apply Permutation_map.
    clear. induction (get_status model_name) as [|x l IH]; [reflexivity|].
    cbn [filter]. destruct x as [app cfg].
    rewrite (survives_eq [] model_name app cfg). cbn [_include_app].
    now constructor. }
  exists full, series, every.
  split; [exact Hfull|]. split; [exact Hseries|]. split; [exact Hevery|].
  split; [exact Pall|]. split; [exact Mseries|]. split; [exact Mfull|].
  split.
  - intros app H. apply Mfull in H as (cfg & n & Hin & _ & Hsub & _).
    apply Mseries. eauto.
  - intros app H. apply Mseries in H as (cfg & Hin & _).
    apply (Permutation_in app (Permutation_sym Pall)).
    now apply (in_map fst) in Hin.
Qed.

End DefaultPlans.

Lemma default_plans_witness :
  NoDup (map fst example_status)
  /\ exists full series every,
       get_upgrade_groups (fun _ => example_status)
         (fun _ _ => [("source", "distro")]) None ExtraNone = Ok full
       /\ get_series_upgrade_groups (fun _ => example_status) None ExtraNone
          = Ok series
       /\ get_charm_upgrade_groups (fun _ => example_status) None ExtraNone
          = Ok every
       /\ incl (List.concat (map snd full)) (List.concat (map snd series))
       /\ incl (List.concat (map snd series)) (List.concat (map snd every)).
Proof.
  split; [exact example_status_keys|].
  destruct (default_plans (fun _ => example_status)
              (fun _ _ => [("source", "distro")]) None example_status_keys)
    as (full & series & every & H1 & H2 & H3 & _ & _ & _ & H4 & H5).
  exists full, series, every. auto.
Defined.

(** ** Filters that keep state *)

Lemma include_app_st_pure {W : Type} (app : string) (cfg : AppConfig)
  (fs : list (StatefulFilter W)) (gs : list Filter)
  (model_name : option string) (w : W) :
  Forall2 answers_as fs gs ->
  _include_app_st app cfg fs model_name w
  = (_include_app app cfg gs model_name, w).
Proof.
  induction 1 as [|f g fs gs Hfg _ IH]; [reflexivity|].
  cbn [_include_app_st _include_app]. rewrite (Hfg app cfg model_name w).
  destruct (g app cfg model_name) as [[|]|e]; cbn [bind];
    [reflexivity | exact IH | reflexivity].
Qed.

(** With pure filters the loop with state computes what the loop over
    functions of the arguments computes, and leaves the state as it is. *)
Lemma candidates_loop_st_pure {W : Type} (items : list (string * AppConfig))
  (fs : list (StatefulFilter W)) (gs : list Filter)
  (model_name : option string) (w : W) :
  Forall2 answers_as fs gs ->
  candidates_loop_st items fs model_name w
  = (candidates_loop items gs model_name, w).
Proof.
  intros H. induction items as [|[app cfg] rest IH]; [reflexivity|].
  cbn [candidates_loop_st candidates_loop].
  rewrite (include_app_st_pure app cfg fs gs model_name w H).
  destruct (_include_app app cfg gs model_name) as [inc|e]; cbn [bind];
    [|reflexivity].
  rewrite IH.
  now destruct (candidates_loop rest gs model_name).
Qed.

Lemma pure_filters_functions {W : Type} (fs : list (StatefulFilter W)) :
  Forall pure_filter fs -> exists gs, Forall2 answers_as fs gs.
Proof.
  induction 1 as [|f fs [g Hg] _ [gs Hgs]].
  - exists []. constructor.
  - exists (g :: gs). now constructor.
Qed.

Lemma Forall2_In_r {A B : Type} (R : A -> B -> Prop) (l : list A)
  (l' : list B) (y : B) :
  Forall2 R l l' -> In y l' -> exists x, In x l /\ R x y.
Proof.
  induction 1 as [|x y' l l' Hxy _ IH]; intros Hin; [contradiction|].
  destruct Hin as [<-|Hin].
  - exists x. split; [now left | exact Hxy].
  - destruct (IH Hin) as (x' & Hx' & HR). exists x'. split; [now right|].
    exact HR.
Qed.

(** X4: for pure filters (the answer of each depends on its arguments
    only and a call changes no state) that return a boolean on every
    application of the status, the order of the filters in the chain does
    not change what [get_upgrade_candidates] returns. *)
Theorem candidates_filter_order {W : Type}
  (get_status : option string -> list (string * AppConfig))
  (model_name : option string) (filters filters' : list (StatefulFilter W))
  (w : W) :
  Permutation filters filters' ->
  Forall pure_filter filters ->
  (forall filt app cfg w',
      In filt filters -> In (app, cfg) (get_status model_name) ->
      exists b, fst (filt app cfg model_name w') = Ok b) ->
  get_upgrade_candidates_st get_status model_name (Some filters) w
  = get_upgrade_candidates_st get_status model_name (Some filters') w.
Proof.
  intros Hperm Hpure Hret.
  destruct (pure_filters_functions filters Hpure) as [gs Hgs].
  destruct (Permutation_Forall2 Hperm Hgs) as (gs' & Hperm' & Hgs').
  unfold get_upgrade_candidates_st.
  rewrite (candidates_loop_st_pure _ filters gs model_name w Hgs),
    (candidates_loop_st_pure _ filters' gs' model_name w Hgs').
  f_equal.
  apply (candidates_order_of_functions get_status model_name gs gs' Hperm').
  intros g app cfg Hg Hin.
  destruct (Forall2_In_r _ _ _ g Hgs Hg) as (f & Hf & Hfg).
  destruct (Hret f app cfg w Hf Hin) as [b Hb].
  rewrite (Hfg app cfg model_name w) in Hb. eauto.
Qed.

Lemma lift_filter_pure {W : Type} (gs : list Filter) :
  Forall (pure_filter (W := W)) (map lift_filter gs).
Proof.
  apply Forall_forall. intros f Hf.
  apply in_map_iff in Hf as (g & <- & _). exists g. now intros ? ? ? ?.
Qed.

Lemma candidates_filter_order_witness :
  Permutation (map (lift_filter (W := nat)) example_filters)
    (rev (map lift_filter example_filters))
  /\ Forall pure_filter (map (lift_filter (W := nat)) example_filters)
  /\ get_upgrade_candidates_st (fun _ => example_status) None
       (Some (map lift_filter example_filters)) 0
     = get_upgrade_candidates_st (fun _ => example_status) None
         (Some (rev (map lift_filter example_filters))) 0.
Proof.
  split; [apply Permutation_rev|].
  split; [apply lift_filter_pure|].
  apply (candidates_filter_order (fun _ => example_status) None
           (map lift_filter example_filters)
           (rev (map lift_filter example_filters)) 0
           (Permutation_rev _) (lift_filter_pure example_filters)).
  intros filt app cfg w' Hf Hin.
  apply in_map_iff in Hf as (g & <- & Hg). cbn [lift_filter fst].
  now apply example_filters_each_return.
Defined.

(** Filters that keep state are outside this: with a filter that
    excludes on its first call only, the chain in one order keeps [b] and
    in the other order keeps nothing, although every call returns a
    boolean. *)
Example order_matters_with_state :
  fst (get_upgrade_candidates_st (fun _ => two_apps) None
         (Some [first_call_only; named_a]) 0)
  = Ok [("b", {| charm := "cs:b-1"; subordinate_to := [] |})]
  /\ fst (get_upgrade_candidates_st (fun _ => two_apps) None
            (Some [named_a; first_call_only]) 0)
     = Ok [].
Proof. split; reflexivity. Qed.

(** X5: for pure filters, the chain [filters ++ more] gives candidates
    exactly when the chain [filters] gives candidates and the chain
    [more], run on those candidates as the status, gives candidates; and
    they are the same.  Appending pure filters amounts to filtering what
    the first chain kept. *)
Theorem candidates_chain_append {W : Type}
  (get_status : option string -> list (string * AppConfig))
  (model_name : option string) (filters more : list (StatefulFilter W))
  (w : W) (cands : list (string * AppConfig)) :
  Forall pure_filter (filters ++ more) ->
  fst (get_upgrade_candidates_st get_status model_name
         (Some (filters ++ more)) w) = Ok cands
  <-> exists kept,
        fst (get_upgrade_candidates_st get_status model_name
               (Some filters) w) = Ok kept
        /\ fst (get_upgrade_candidates_st (fun _ => kept) model_name
                  (Some more) w) = Ok cands.
Proof.
  intros Hpure. apply Forall_app in Hpure as [Hf Hm].
  destruct (pure_filters_functions filters Hf) as [gs Hgs].
  destruct (pure_filters_functions more Hm) as [ms Hms].
  unfold get_upgrade_candidates_st.
  rewrite (candidates_loop_st_pure _ (filters ++ more) (gs ++ ms)
             model_name w (Forall2_app Hgs Hms)).
  rewrite (candidates_loop_st_pure _ filters gs model_name w Hgs).
  cbn [fst]. rewrite candidates_loop_app. split.
  - intros (kept & Hk & Hc). exists kept. split; [exact Hk|].
    now rewrite (candidates_loop_st_pure _ more ms model_name w Hms).
  - intros (kept & Hk & Hc). exists kept. split; [exact Hk|].
    now rewrite (candidates_loop_st_pure _ more ms model_name w Hms) in Hc.
Qed.

Lemma candidates_chain_append_witness :
  Forall pure_filter
    (map (lift_filter (W := nat)) [ _filter_subordinates ]
     ++ map lift_filter [ _filter_openstack_upgrade_list ])
  /\ exists kept cands,
       fst (get_upgrade_candidates_st (fun _ => example_status) None
              (Some (map (lift_filter (W := nat)) [ _filter_subordinates ]))
              0) = Ok kept
       /\ fst (get_upgrade_candidates_st (fun _ => kept) None
                 (Some (map (lift_filter (W := nat))
                          [ _filter_openstack_upgrade_list ])) 0) = Ok cands
       /\ List.length kept = 3
       /\ List.length cands = 2.
Proof.
  assert (Hpure : Forall pure_filter
            (map (lift_filter (W := nat)) [ _filter_subordinates ]
             ++ map lift_filter [ _filter_openstack_upgrade_list ])).
  { rewrite <- map_app. apply lift_filter_pure. }
  split; [exact Hpure|].
  destruct (proj1 (candidates_chain_append (fun _ => example_status) None
                     (map lift_filter [ _filter_subordinates ])
                     (map lift_filter [ _filter_openstack_upgrade_list ])
                     0 _ Hpure) eq_refl) as (kept & Hk & Hc).
  eexists _, _. split; [reflexivity|]. split; [reflexivity|].
  split; reflexivity.
Defined.

(** Filters that keep state are outside this as well: with a filter
    that counts its calls and one that excludes after exactly one call,
    one pass over the chain keeps [b], while the second filter run on
    what the first one kept, in the state the first pass left, keeps
    both applications. *)
Example append_differs_with_state :
  fst (get_upgrade_candidates_st (fun _ => two_apps) None
         (Some ([count_calls] ++ [after_one_call])) 0)
  = Ok [("b", {| charm := "cs:b-1"; subordinate_to := [] |})]
  /\ get_upgrade_candidates_st (fun _ => two_apps) None
       (Some [count_calls]) 0
     = (Ok two_apps, 2)
  /\ fst (get_upgrade_candidates_st (fun _ => two_apps) None
            (Some [after_one_call]) 2)
     = Ok two_apps.
Proof. repeat split; reflexivity. Qed.
